(** * A shallow embedding of the OSINT reconnaissance tool (src/domain.py)

    The class [OsintTool] of src/domain.py is embedded method by method:
    - [Classifier]: [is_ip_address], the regular expression
      [^(\d{1,3}\.){3}\d{1,3}$] run by [re.match];
    - [Json]: the Python values of the report and [json.dump] / [json.load];
    - [Pool]: the [ThreadPoolExecutor(max_workers=10)] running [check_port]
      over [common_ports], as a step relation over the pool state;
    - [Recon]: the methods [get_ip], [get_whois], [get_dns_records],
      [scan_common_ports], [get_http_headers], [save_results] and
      [run_recon] in a state and exception monad over the [output] dict and
      a trace of the network calls.

    Strings are [String.string]: a character is one of the code points
    U+0000 to U+00FF, in which range Python's [\d] matches exactly the
    ASCII digits [0] to [9]; targets with other characters are not
    represented.  The console output ([print]) is not modelled. *)

From Stdlib Require Import String Ascii List ZArith Bool Lia Permutation Sorted.
Import ListNotations.
Open Scope string_scope.
Set Warnings "-register-all".

(* ------------------------------------------------------------------ *)
(** ** Target classification: [is_ip_address] *)

Module Classifier.

(** The fragment of Python's regular expressions used by [is_ip_address]. *)
Inductive regex : Type :=
| RDigit                              (* \d *)
| RChar (c : ascii)                   (* a literal character, e.g. \. *)
| RSeq (r1 r2 : regex)                (* concatenation *)
| RRep (r : regex) (lo hi : nat)      (* r{lo,hi}, greedy *)
| REnd.                               (* $ *)

Definition is_digit (c : ascii) : bool :=
  let n := nat_of_ascii c in (48 <=? n)%nat && (n <=? 57)%nat.

Definition newline : ascii := ascii_of_nat 10.

(** Backtracking matcher in continuation-passing style: [rmatch r s k]
    holds when a prefix of [s] matches [r] and [k] accepts the rest.
    A greedy repetition first tries one more iteration of its body, then
    the continuation.  [$] matches at the end of the string or just before
    a newline that ends the string (Python's [re] semantics without
    [re.MULTILINE]). *)
Fixpoint rmatch (r : regex) (s : list ascii) (k : list ascii -> bool) : bool :=
  match r with
  | RDigit => match s with c :: s' => is_digit c && k s' | [] => false end
  | RChar c0 => match s with c :: s' => Ascii.eqb c c0 && k s' | [] => false end
  | RSeq r1 r2 => rmatch r1 s (fun s' => rmatch r2 s' k)
  | RRep r1 lo hi =>
      (fix rep (lo hi : nat) (s : list ascii) {struct hi} : bool :=
         match hi with
         | O => Nat.eqb lo 0 && k s
         | S h => rmatch r1 s (fun s' => rep (pred lo) h s')
                  || (Nat.eqb lo 0 && k s)
         end) lo hi s
  | REnd =>
      match s with
      | [] => k s
      | [c] => Ascii.eqb c newline && k s
      | _ => false
      end
  end.

(** [r'^(\d{1,3}\.){3}\d{1,3}$']; the leading [^] is implied by [re.match],
    which only tries a match at position 0. *)
Definition ip_pattern : regex :=
  RSeq (RRep (RSeq (RRep RDigit 1 3) (RChar ".")) 3 3)
       (RSeq (RRep RDigit 1 3) REnd).

(** [bool(re.match(pattern, target))] *)
Definition re_match (r : regex) (s : string) : bool :=
  rmatch r (list_ascii_of_string s) (fun _ => true).

Definition is_ip_address (target : string) : bool :=
  re_match ip_pattern target.

(** The dotted-quad shape the specification describes: four groups of one
    to three digits separated by periods, and nothing else. *)
Definition digit_group (g : list ascii) : Prop :=
  (1 <= length g <= 3)%nat /\ forallb is_digit g = true.

Definition spec_dotted_quad (s : string) : Prop :=
  exists g1 g2 g3 g4,
    digit_group g1 /\ digit_group g2 /\ digit_group g3 /\ digit_group g4 /\
    list_ascii_of_string s
    = (g1 ++ ["."%char] ++ g2 ++ ["."%char] ++ g3 ++ ["."%char] ++ g4)%list.

End Classifier.

(* ------------------------------------------------------------------ *)
(** ** Python values of the report, [json.dump] and [json.load] *)

Module Json.

(** Dict keys occurring in the report: [str] keys, and the [int] port
    numbers of [port_scan]. *)
Inductive key : Type :=
| KStr (s : string)
| KInt (z : Z).

(** Python values: [None], [str], [int], [list] and [dict]; a dict is an
    association list in insertion order. *)
Inductive pyval : Type :=
| PNone
| PStr (s : string)
| PInt (z : Z)
| PList (l : list pyval)
| PDict (d : list (key * pyval)).

Definition key_eqb (k1 k2 : key) : bool :=
  match k1, k2 with
  | KStr a, KStr b => String.eqb a b
  | KInt a, KInt b => Z.eqb a b
  | _, _ => false
  end.

(** [d[k] = v]: an existing key keeps its position, a new key is appended. *)
Fixpoint dict_set {A} (k : key) (v : A) (d : list (key * A)) : list (key * A) :=
  match d with
  | [] => [(k, v)]
  | (k', v') :: d' =>
      if key_eqb k k' then (k', v) :: d' else (k', v') :: dict_set k v d'
  end.

Fixpoint dict_get {A} (k : key) (d : list (key * A)) : option A :=
  match d with
  | [] => None
  | (k', v') :: d' => if key_eqb k k' then Some v' else dict_get k d'
  end.

(** [str(n)] for an [int]: decimal digits, with a leading [-] if negative. *)
Fixpoint digits_aux (fuel : nat) (n : Z) (acc : string) : string :=
  match fuel with
  | O => acc
  | S f =>
      let acc' := String (ascii_of_nat (48 + Z.to_nat (n mod 10))) acc in
      if Z.eqb (n / 10) 0 then acc' else digits_aux f (n / 10) acc'
  end.

Definition str_of_Z (z : Z) : string :=
  let a := Z.abs z in
  let ds := digits_aux (S (Z.to_nat (Z.log2 a))) a "" in
  if Z.ltb z 0 then "-" ++ ds else ds.

(** [json.dump] turns every dict key into a JSON string: an [int] key is
    written as its decimal representation. *)
Definition key_str (k : key) : string :=
  match k with KStr s => s | KInt z => str_of_Z z end.

(** The JSON document written by [json.dump] (its text is a faithful
    rendering of this tree; [indent=4] only adds whitespace). *)
Inductive json : Type :=
| JNull
| JStr (s : string)
| JNum (z : Z)
| JArr (l : list json)
| JObj (kvs : list (string * json)).

Fixpoint to_json (v : pyval) : json :=
  match v with
  | PNone => JNull
  | PStr s => JStr s
  | PInt z => JNum z
  | PList l => JArr (map to_json l)
  | PDict d => JObj (map (fun kv => (key_str (fst kv), to_json (snd kv))) d)
  end.

(** [json.load]: an object becomes a dict built pair by pair, so a
    repeated key keeps its first position and its last value. *)
Fixpoint of_json (j : json) : pyval :=
  match j with
  | JNull => PNone
  | JStr s => PStr s
  | JNum z => PInt z
  | JArr l => PList (map of_json l)
  | JObj kvs =>
      PDict (fold_left (fun d kv => dict_set (KStr (fst kv)) (of_json (snd kv)) d)
                       kvs [])
  end.

(** The value [json.load] gives back for [v]: every dict key replaced by
    its JSON string form. *)
Fixpoint keys_to_str (v : pyval) : pyval :=
  match v with
  | PList l => PList (map keys_to_str l)
  | PDict d => PDict (map (fun kv => (KStr (key_str (fst kv)), keys_to_str (snd kv))) d)
  | _ => v
  end.

Fixpoint nodupb (l : list string) : bool :=
  match l with
  | [] => true
  | x :: l' => negb (existsb (String.eqb x) l') && nodupb l'
  end.

(** Every dict of [v] has keys that stay distinct once written as JSON
    strings (a Python dict never repeats a key; [80] and ["80"] would
    collide). *)
Fixpoint keys_unique (v : pyval) : bool :=
  match v with
  | PList l => forallb keys_unique l
  | PDict d => nodupb (map (fun kv => key_str (fst kv)) d)
               && forallb (fun kv => keys_unique (snd kv)) d
  | _ => true
  end.

End Json.

(* ------------------------------------------------------------------ *)
(** ** The port scan: [check_port] under [ThreadPoolExecutor] *)

Module Pool.

(** [common_ports] of [scan_common_ports]. *)
Definition common_ports : list Z :=
  [21; 22; 23; 25; 53; 80; 110; 115; 135; 139; 143; 443; 445;
   1433; 3306; 3389; 5060; 5900; 8080; 8443]%Z.

(** [ThreadPoolExecutor(max_workers=10)] *)
Definition max_workers : nat := 10.

(** The outcome of [sock.connect_ex((ip, port))] for each port: [Some code]
    is the returned error indicator ([0] on success; a timeout, a refusal or
    an unreachable host give a nonzero code), [None] means the call raised
    (e.g. [socket.gaierror] for an address that cannot be parsed). *)
Definition connector := Z -> option Z.

(** A completed future of the executor. *)
Inductive fut : Type :=
| FValue (port : Z) (is_open : bool)   (* check_port returned (port, result == 0) *)
| FRaised.                             (* check_port raised *)

(** [check_port(port)]: one socket, one [connect_ex], [(port, result == 0)]. *)
Definition check_port (net : connector) (port : Z) : fut :=
  match net port with
  | Some result => FValue port (Z.eqb result 0)
  | None => FRaised
  end.

(** What [list(executor.map(...))] evaluates to. *)
Inductive exec_result : Type :=
| ExValues (rs : list (Z * bool))
| ExRaised.

(** [executor.map] yields the futures' results in submission order; the
    first future that raised makes [list(...)] raise. *)
Fixpoint gather (fs : list fut) : exec_result :=
  match fs with
  | [] => ExValues []
  | FValue p b :: fs' =>
      match gather fs' with
      | ExValues rs => ExValues ((p, b) :: rs)
      | ExRaised => ExRaised
      end
  | FRaised :: _ => ExRaised
  end.

Definition executor_map (f : Z -> fut) (ports : list Z) : exec_result :=
  gather (map f ports).

(** The ports whose attempt runs when [list(executor.map(...))]
    re-raises.  The results are consumed in submission order, so every port
    up to the first one whose attempt raised has run; of the later ports,
    those a worker had already started ([started]) run to the end, and the
    others are cancelled by [executor.map] before they start. *)
Fixpoint attempted_on_raise (net : connector) (started : Z -> bool) (ports : list Z)
  : list Z :=
  match ports with
  | [] => []
  | p :: ps =>
      match net p with
      | None => p :: filter started ps
      | Some _ => p :: attempted_on_raise net started ps
      end
  end.

(** The post-processing loop of [scan_common_ports]: each open port gets
    [socket.getservbyport(port)] or ["unknown"] when that raises [OSError]. *)
Fixpoint open_ports (serv : Z -> option string) (rs : list (Z * bool))
  : list (Z * string) :=
  match rs with
  | [] => []
  | (p, true) :: rs' =>
      (p, match serv p with Some s => s | None => "unknown" end)
        :: open_ports serv rs'
  | (_, false) :: rs' => open_ports serv rs'
  end.

(** *** The executor as a state machine

    [executor.map] submits one work item per port (with its index); a
    submission may start a new worker thread while fewer than
    [max_workers] exist; an idle worker takes the head of the FIFO work
    queue and runs [check_port] (this is when the connection attempt
    starts); a busy worker finishes by setting the result of the future of
    its item.  Any interleaving of these actions is allowed: spawning is
    allowed at any time below the bound, which covers every run of
    [_adjust_thread_count]. *)
Record pool : Type := mkPool {
  unsubmitted : list (nat * Z);
  work_queue : list (nat * Z);
  workers : list (option (nat * Z));    (* None: idle thread *)
  slots : list (option fut);             (* futures, by submission index *)
  attempts : list Z                      (* connection attempts started *)
}.

Fixpoint list_set {A} (l : list A) (i : nat) (x : A) : list A :=
  match l, i with
  | [], _ => []
  | _ :: l', O => x :: l'
  | y :: l', S i' => y :: list_set l' i' x
  end.

Inductive action : Type :=
| ASubmit
| ASpawn
| ATake (w : nat)
| AFinish (w : nat).

Definition apply_action (net : connector) (a : action) (st : pool) : option pool :=
  match a with
  | ASubmit =>
      match unsubmitted st with
      | t :: rest =>
          Some (mkPool rest (work_queue st ++ [t]) (workers st) (slots st) (attempts st))
      | [] => None
      end
  | ASpawn =>
      if Nat.ltb (length (workers st)) max_workers
      then Some (mkPool (unsubmitted st) (work_queue st) (workers st ++ [None])
                        (slots st) (attempts st))
      else None
  | ATake w =>
      match work_queue st, nth_error (workers st) w with
      | t :: rest, Some None =>
          Some (mkPool (unsubmitted st) rest (list_set (workers st) w (Some t))
                       (slots st) (attempts st ++ [snd t]))
      | _, _ => None
      end
  | AFinish w =>
      match nth_error (workers st) w with
      | Some (Some (i, p)) =>
          Some (mkPool (unsubmitted st) (work_queue st) (list_set (workers st) w None)
                       (list_set (slots st) i (Some (check_port net p))) (attempts st))
      | _ => None
      end
  end.

Definition step (net : connector) (st st' : pool) : Prop :=
  exists a, apply_action net a st = Some st'.

Inductive reachable (net : connector) (st : pool) : pool -> Prop :=
| reach_refl : reachable net st st
| reach_step : forall st1 st2,
    reachable net st st1 -> step net st1 st2 -> reachable net st st2.

Definition init (ports : list Z) : pool :=
  mkPool (combine (seq 0 (length ports)) ports) [] [] (repeat None (length ports)) [].

Fixpoint busy (ws : list (option (nat * Z))) : list (nat * Z) :=
  match ws with
  | [] => []
  | Some t :: ws' => t :: busy ws'
  | None :: ws' => busy ws'
  end.

(** Connection attempts in flight: the busy workers. *)
Definition in_flight (st : pool) : nat := length (busy (workers st)).

Definition terminal (st : pool) : Prop :=
  unsubmitted st = [] /\ work_queue st = [] /\ busy (workers st) = [].

(** The results the caller of [executor.map] collects once every future
    is done ([None] while some future is pending). *)
Fixpoint collect_slots (l : list (option fut)) : option (list fut) :=
  match l with
  | [] => Some []
  | Some f :: l' => option_map (cons f) (collect_slots l')
  | None :: _ => None
  end.

Definition collect (st : pool) : option exec_result :=
  option_map gather (collect_slots (slots st)).

(** Replaying a schedule (a list of actions). *)
Fixpoint run_actions (net : connector) (acts : list action) (st : pool) : option pool :=
  match acts with
  | [] => Some st
  | a :: acts' =>
      match apply_action net a st with
      | Some st' => run_actions net acts' st'
      | None => None
      end
  end.

End Pool.

(* ------------------------------------------------------------------ *)
(** ** The collectors and [run_recon] *)

Module Recon.
Import Classifier Json Pool.

(** Exceptions that can escape a method. *)
Inductive pyexc : Type :=
| GaiError          (* socket.gaierror *)
| UnicodeError      (* e.g. the idna encoding of an empty or over-long label *)
| ProbeError        (* an exception raised inside check_port *)
| WriteError.       (* open(filename, 'w') or the write (json.dump) failed *)

(** The calls the tool makes to the outside world, in order. *)
Inductive call : Type :=
| CResolve (host : string)
| CWhois (target : string)
| CDns (target rtype : string)
| CConnect (ip : string) (port : Z)
| CHttp (url : string) (timeout : Z)
| CWrite (filename : string) (doc : json)   (* the file now holds the document *)
| CTruncate (filename : string).           (* opened for writing, then the write
                                              failed: the file is left empty or
                                              with a part of the document *)

(** The fields [get_whois] reads from the [whois.whois] answer; the dates
    are already passed through [str]. *)
Record whois_info : Type := mkWhois {
  w_registrar : pyval;
  w_creation_date : string;
  w_expiration_date : string;
  w_name_servers : pyval;
  w_emails : pyval
}.

(** The outside world of one run. *)
Record env : Type := mkEnv {
  gethostbyname : string -> string + pyexc;
  whois_query : string -> option whois_info;            (* None: raised *)
  dns_resolve : string -> string -> option (list string);  (* None: raised *)
  connect_ex : string -> connector;
  (* for a port after the first one whose attempt raised: whether a worker
     had started its attempt before [executor.map] cancelled the pending
     futures *)
  started_after_raise : string -> Z -> bool;
  getservbyport : Z -> option string;                    (* None: OSError *)
  http_get : string -> Z -> option (list (string * string));  (* None: raised *)
  can_write : string -> bool;        (* open(filename, 'w') and json.dump succeed *)
  open_fails : string -> bool        (* when they do not: whether open itself failed *)
}.

(** [self.output["results"]] and the trace of outside calls. *)
Record rstate : Type := mkState {
  results : list (key * pyval);
  trace : list call
}.

Inductive outcome (A : Type) : Type :=
| Ok (a : A)
| Exc (e : pyexc).
Arguments Ok {A} a.
Arguments Exc {A} e.

Definition M (A : Type) : Type := rstate -> outcome A * rstate.

Definition ret {A} (a : A) : M A := fun st => (Ok a, st).

Definition bind {A B} (m : M A) (k : A -> M B) : M B :=
  fun st => match m st with
            | (Ok a, st') => k a st'
            | (Exc e, st') => (Exc e, st')
            end.

Definition raise {A} (e : pyexc) : M A := fun st => (Exc e, st).

Notation "x <- m ;; k" := (bind m (fun x => k))
  (at level 61, m at next level, right associativity).
Notation "m ;;; k" := (bind m (fun _ => k))
  (at level 61, right associativity).

(** [self.output["results"][k] = v] *)
Definition set_result (k : string) (v : pyval) : M unit :=
  fun st => (Ok tt, mkState (dict_set (KStr k) v (results st)) (trace st)).

Definition emit (c : call) : M unit :=
  fun st => (Ok tt, mkState (results st) (trace st ++ [c])).

Definition not_found : string := "Not found".
Definition whois_failed : string := "Lookup failed".
Definition dns_skipped : string := "Skipped for IP address".
Definition scan_skipped : string := "Skipped due to DNS resolution failure".

(** [get_ip]: only [socket.gaierror] is caught. *)
Definition get_ip (e : env) (target : string) : M (option string) :=
  if is_ip_address target then ret (Some target)
  else
    emit (CResolve target);;;
    match gethostbyname e target with
    | inl ip => set_result "ip_address" (PStr ip);;; ret (Some ip)
    | inr GaiError => set_result "ip_address" (PStr not_found);;; ret None
    | inr x => raise x
    end.

(** Python truthiness. *)
Definition truthy (v : pyval) : bool :=
  match v with
  | PNone => false
  | PStr s => negb (String.eqb s "")
  | PInt z => negb (Z.eqb z 0)
  | PList l => negb (Nat.eqb (length l) 0)
  | PDict d => negb (Nat.eqb (length d) 0)
  end.

Definition simplified_whois (w : whois_info) : pyval :=
  PDict [(KStr "registrar", w_registrar w);
         (KStr "creation_date", PStr (w_creation_date w));
         (KStr "expiration_date", PStr (w_expiration_date w));
         (KStr "name_servers", w_name_servers w);
         (KStr "emails", if truthy (w_emails w) then w_emails w else PList [])].

(** [get_whois]: every exception is caught. *)
Definition get_whois (e : env) (target : string) : M unit :=
  emit (CWhois target);;;
  match whois_query e target with
  | Some w => set_result "whois" (simplified_whois w)
  | None => set_result "whois" (PStr whois_failed)
  end.

Definition record_types : list string :=
  ["A"; "AAAA"; "MX"; "NS"; "TXT"; "SOA"; "CNAME"].

(** The loop of [get_dns_records]: a query that raises adds nothing. *)
Fixpoint dns_loop (e : env) (target : string) (rts : list string)
    (dns_results : list (key * pyval)) : M (list (key * pyval)) :=
  match rts with
  | [] => ret dns_results
  | rt :: rts' =>
      emit (CDns target rt);;;
      match dns_resolve e target rt with
      | Some records =>
          dns_loop e target rts'
            (dict_set (KStr rt) (PList (map PStr records)) dns_results)
      | None => dns_loop e target rts' dns_results
      end
  end.

Definition get_dns_records (e : env) (target : string) : M unit :=
  if is_ip_address target then set_result "dns_records" (PStr dns_skipped)
  else
    dns_results <- dns_loop e target record_types [];;
    set_result "dns_records" (PDict dns_results).

(** [scan_common_ports(ip)]: the attempts run on the executor (the order in
    which they start is the business of [Pool]; here they are listed in
    submission order); the result list is in submission order.  When an
    attempt raises, the pending futures are cancelled, so only the ports of
    [attempted_on_raise] are attempted, and [list(...)] re-raises once the
    [with] block has waited for the running ones. *)
Definition scan_common_ports (e : env) (ip : option string) : M unit :=
  match ip with
  | None => set_result "port_scan" (PStr scan_skipped)
  | Some a =>
      if String.eqb a "" then set_result "port_scan" (PStr scan_skipped)
      else
        match executor_map (check_port (connect_ex e a)) common_ports with
        | ExRaised =>
            fold_right (fun p m => emit (CConnect a p);;; m) (ret tt)
              (attempted_on_raise (connect_ex e a) (started_after_raise e a) common_ports);;;
            raise ProbeError
        | ExValues rs =>
            fold_right (fun p m => emit (CConnect a p);;; m) (ret tt) common_ports;;;
            set_result "port_scan"
              (PDict (map (fun ps => (KInt (fst ps), PStr (snd ps)))
                          (open_ports (getservbyport e) rs)))
        end
  end.

Definition header_dict (h : list (string * string)) : pyval :=
  PDict (map (fun kv => (KStr (fst kv), PStr (snd kv))) h).

(** The loop of [get_http_headers]: [break] on the first success, every
    exception swallowed. *)
Fixpoint http_loop (e : env) (target : string) (protocols : list string) : M unit :=
  match protocols with
  | [] => ret tt
  | protocol :: ps =>
      let url := protocol ++ "://" ++ target in
      emit (CHttp url 5);;;
      match http_get e url 5 with
      | Some headers => set_result (protocol ++ "_headers") (header_dict headers)
      | None => http_loop e target ps
      end
  end.

Definition get_http_headers (e : env) (target : string) : M unit :=
  http_loop e target ["https"; "http"].

(** [self.output] *)
Definition report (target : string) (res : list (key * pyval)) : pyval :=
  PDict [(KStr "target", PStr target); (KStr "results", PDict res)].

(** [save_results]: [open(filename, 'w')] creates or truncates the file
    before [json.dump] writes to it, so a write that fails after the open
    leaves the file without the complete report. *)
Definition save_results (e : env) (target : string) : M unit :=
  fun st =>
    let filename := target ++ "_recon.json" in
    if can_write e filename
    then (Ok tt, mkState (results st)
                   (trace st ++ [CWrite filename (to_json (report target (results st)))]))
    else if open_fails e filename then (Exc WriteError, st)
    else (Exc WriteError, mkState (results st) (trace st ++ [CTruncate filename])).

Definition run_recon (e : env) (target : string) : outcome unit * rstate :=
  (ip <- get_ip e target;;
   get_whois e target;;;
   get_dns_records e target;;;
   scan_common_ports e ip;;;
   get_http_headers e target;;;
   save_results e target) (mkState [] []).

(** [self.output["results"]] at the end of [run_recon]. *)
Definition final_results (e : env) (target : string) : list (key * pyval) :=
  results (snd (run_recon e target)).

End Recon.

(* ------------------------------------------------------------------ *)
(** ** Concrete runs *)

Module Scenarios.
Import Json Pool Recon.

(** Connection outcomes: 22, 80 and 443 accept, 23 times out
    ([EAGAIN]), every other port refuses ([ECONNREFUSED]). *)
Definition demo_net : connector :=
  fun p => if (Z.eqb p 22 || Z.eqb p 80 || Z.eqb p 443)%bool then Some 0%Z
           else if Z.eqb p 23 then Some 11%Z else Some 111%Z.

Definition demo_serv : Z -> option string :=
  fun p => if Z.eqb p 22 then Some "ssh" else if Z.eqb p 80 then Some "http"
           else if Z.eqb p 443 then Some "https" else None.

(** Ten workers; the attempts of each batch complete in reverse order. *)
Definition sched_reverse : list action :=
  repeat ASubmit 20 ++ repeat ASpawn 10
  ++ map ATake (seq 0 10) ++ map AFinish (rev (seq 0 10))
  ++ map ATake (seq 0 10) ++ map AFinish (rev (seq 0 10)).

(** One worker; every attempt completes before the next one starts. *)
Definition sched_serial : list action :=
  ASpawn :: flat_map (fun _ => [ASubmit; ATake 0; AFinish 0]) (seq 0 20).

(** Ten attempts in flight at once. *)
Definition sched_busy : list action :=
  repeat ASubmit 20 ++ repeat ASpawn 10 ++ map ATake (seq 0 10).

Definition pool_after (net : connector) (acts : list action) : pool :=
  match run_actions net acts (init common_ports) with
  | Some st => st
  | None => init common_ports
  end.

(** Everything fails: resolution ([socket.gaierror]), WHOIS, DNS, HTTP;
    all ports refuse. *)
Definition env_offline : env :=
  mkEnv (fun _ => inr GaiError) (fun _ => None) (fun _ _ => None)
        (fun _ _ => Some 111%Z) (fun _ _ => false) (fun _ => None) (fun _ _ => None)
        (fun _ => true) (fun _ => false).

(** The resolver raises [UnicodeError], as [socket.gethostbyname] does for
    a name with an empty label such as ["a..com"]. *)
Definition env_idna : env :=
  mkEnv (fun _ => inr UnicodeError) (fun _ => None) (fun _ _ => None)
        (fun _ _ => Some 111%Z) (fun _ _ => false) (fun _ => None) (fun _ _ => None)
        (fun _ => true) (fun _ => false).

(** [connect_ex] raises ([socket.gaierror]) for an address that
    [is_ip_address] accepts but the socket layer cannot parse, such as
    ["999.999.999.999"]; the ten workers had started the first ten ports
    (21 to 139) when the first attempt raised. *)
Definition env_unparsable : env :=
  mkEnv (fun _ => inr GaiError) (fun _ => None) (fun _ _ => None)
        (fun _ _ => None) (fun _ p => Z.leb p 139) (fun _ => None) (fun _ _ => None)
        (fun _ => true) (fun _ => false).

(** A reachable host: resolution, DNS A records, ports 22/80/443 and
    HTTPS answer. *)
Definition env_demo : env :=
  mkEnv (fun _ => inl "93.184.216.34")
        (fun _ => None)
        (fun _ rt => if String.eqb rt "A" then Some ["93.184.216.34"] else None)
        (fun _ => demo_net) (fun _ _ => false) demo_serv
        (fun url _ => if String.eqb url "https://example.com"
                      then Some [("Server", "ECS"); ("Content-Type", "text/html")]
                      else None)
        (fun _ => true) (fun _ => false).

(** The reachable host, with a full disk: [open] succeeds and [json.dump]
    fails. *)
Definition env_disk_full : env :=
  mkEnv (gethostbyname env_demo) (whois_query env_demo) (dns_resolve env_demo)
        (connect_ex env_demo) (started_after_raise env_demo) (getservbyport env_demo)
        (http_get env_demo) (fun _ => false) (fun _ => false).

End Scenarios.

(* ------------------------------------------------------------------ *)
(** ** Views of the embedding used by the properties *)

Module Views.
Import Classifier Json Pool Recon.
Local Open Scope list_scope.

(** The language of a regex node, relative to the rest of the input:
    [derives r s s'] when [r] can consume [s] up to the suffix [s']. *)
Inductive derives : regex -> list ascii -> list ascii -> Prop :=
| d_digit c s : is_digit c = true -> derives RDigit (c :: s) s
| d_char c0 c s : Ascii.eqb c c0 = true -> derives (RChar c0) (c :: s) s
| d_seq r1 r2 s s1 s2 : derives r1 s s1 -> derives r2 s1 s2 -> derives (RSeq r1 r2) s s2
| d_rep_stop r hi s : derives (RRep r 0 hi) s s
| d_rep_more r lo h s s1 s2 :
    derives r s s1 -> derives (RRep r (pred lo) h) s1 s2 -> derives (RRep r lo (S h)) s s2
| d_end_nil : derives REnd [] []
| d_end_nl : derives REnd [newline] [newline].

(** [\.] and the repeated group [(\d{1,3}\.)] of the pattern. *)
Definition dot : ascii := "."%char.

Definition group_dot : regex := RSeq (RRep RDigit 1 3) (RChar ".").

(** The address [scan_common_ports] receives from [get_ip] in a run that
    gets that far. *)
Definition resolved (e : env) (t : string) : option string :=
  if is_ip_address t then Some t
  else match gethostbyname e t with inl ip => Some ip | inr _ => None end.

(** The outside calls of each collector, in the order they are made. *)
Definition resolve_calls (t : string) : list call :=
  if is_ip_address t then [] else [CResolve t].

Definition dns_calls (t : string) : list call :=
  if is_ip_address t then [] else map (CDns t) record_types.

Definition scan_calls (ip : option string) : list call :=
  match ip with
  | Some a => if String.eqb a "" then [] else map (CConnect a) common_ports
  | None => []
  end.

Definition http_calls (e : env) (t : string) : list call :=
  CHttp ("https://" ++ t)%string 5
  :: match http_get e ("https://" ++ t)%string 5 with
     | Some _ => []
     | None => [CHttp ("http://" ++ t)%string 5]
     end.

(** The HTTP entry [get_http_headers] records, if any. *)
Definition http_keys (e : env) (t : string) : list key :=
  match http_get e ("https://" ++ t)%string 5 with
  | Some _ => [KStr "https_headers"]
  | None =>
      match http_get e ("http://" ++ t)%string 5 with
      | Some _ => [KStr "http_headers"]
      | None => []
      end
  end.

(** The service name [scan_common_ports] records for an open port. *)
Definition service (e : env) (p : Z) : string :=
  match getservbyport e p with Some s => s | None => "unknown" end.

(** Every dict key of the value is a [str] key. *)
Definition str_keys (d : list (key * pyval)) : Prop :=
  forall k, In k (map fst d) -> exists s, k = KStr s.

(** What the outside world may answer, as the libraries do: the WHOIS
    fields hold no dict with colliding keys, and a response's header
    names are distinct ([response.headers] is a dict). *)
Definition well_formed (e : env) : Prop :=
  (forall t w, whois_query e t = Some w ->
     keys_unique (w_registrar w) = true /\ keys_unique (w_name_servers w) = true /\
     keys_unique (w_emails w) = true) /\
  (forall url n h, http_get e url n = Some h -> NoDup (map fst h)).

(** A dict with [str] keys only, whose keys stay distinct in JSON and
    whose values have no colliding dict keys either. *)
Definition good_dict (d : list (key * pyval)) : Prop :=
  str_keys d /\ keys_unique (PDict d) = true.

(** Some connection attempt of the scan of [ip] raises. *)
Definition scan_raises (e : env) (ip : option string) : Prop :=
  exists a p, ip = Some a /\ a <> "" /\ In p common_ports /\ connect_ex e a p = None.

(** [self.output["results"]] after [get_ip], in a run that gets past it. *)
Definition ip_results (e : env) (t : string) : list (key * pyval) :=
  if is_ip_address t then []
  else dict_set (KStr "ip_address")
         (PStr (match gethostbyname e t with inl ip => ip | inr _ => not_found end)) [].

(** The results file is written with the complete report. *)
Definition writes_file (l : list call) : Prop := exists fn doc, In (CWrite fn doc) l.

(** A results file is opened for writing without the complete report being
    written to it. *)
Definition truncates (l : list call) : Prop := exists fn, In (CTruncate fn) l.

(** Calls that touch a file. *)
Definition file_call (c : call) : bool :=
  match c with
  | CWrite _ _ | CTruncate _ => true
  | _ => false
  end.

End Views.

(* ================================================================== *)
(** * Properties *)

(* ------------------------------------------------------------------ *)
(** ** The executor: invariant of the pool *)

Module PoolFacts.
Import Pool.

Lemma nth_error_list_set {A} (l : list A) (i j : nat) (x : A) :
  nth_error (list_set l i x) j
  = if Nat.eqb i j then option_map (fun _ => x) (nth_error l j) else nth_error l j.
Proof.
  revert i j; induction l as [|y l IH]; intros i j.
  - destruct i, j; simpl; try destruct (_ =? _)%nat; reflexivity.
  - destruct i as [|i], j as [|j]; simpl; try reflexivity.
    rewrite IH. reflexivity.
Qed.

Lemma length_list_set {A} (l : list A) i x : length (list_set l i x) = length l.
Proof.
  revert i; induction l as [|y l IH]; intros [|i]; simpl; auto.
Qed.

Lemma busy_app_none ws : busy (ws ++ [None]) = busy ws.
Proof. induction ws as [|[t|] ws IH]; simpl; try rewrite IH; reflexivity. Qed.

Lemma busy_length ws : (length (busy ws) <= length ws)%nat.
Proof. induction ws as [|[t|] ws IH]; simpl; lia. Qed.

Lemma busy_take ws w t :
  nth_error ws w = Some None ->
  Permutation (busy (list_set ws w (Some t))) (t :: busy ws).
Proof.
  revert w; induction ws as [|o ws IH]; intros [|w] H; simpl in *; try discriminate.
  - inversion H; subst. reflexivity.
  - destruct o as [t'|].
    + rewrite (IH w H). apply perm_swap.
    + apply IH; assumption.
Qed.

Lemma busy_finish ws w t :
  nth_error ws w = Some (Some t) ->
  Permutation (busy ws) (t :: busy (list_set ws w None)).
Proof.
  revert w; induction ws as [|o ws IH]; intros [|w] H; simpl in *; try discriminate.
  - inversion H; subst. reflexivity.
  - destruct o as [t'|].
    + rewrite (IH w H). apply perm_swap.
    + apply IH; assumption.
Qed.

Definition active (st : pool) : list (nat * Z) :=
  unsubmitted st ++ work_queue st ++ busy (workers st).

(** The invariant of every reachable pool state. *)
Record Inv (net : connector) (ports : list Z) (st : pool) : Prop := {
  inv_len : length (slots st) = length ports;
  inv_active : forall i p, In (i, p) (active st) -> nth_error ports i = Some p;
  inv_done : forall i f, nth_error (slots st) i = Some (Some f) ->
               exists p, nth_error ports i = Some p /\ f = check_port net p;
  inv_pending : forall i, nth_error (slots st) i = Some None ->
               exists p, In (i, p) (active st);
  inv_workers : (length (workers st) <= max_workers)%nat;
  inv_attempts : Permutation (attempts st ++ map snd (unsubmitted st ++ work_queue st)) ports
}.

Lemma in_combine_seq (l : list Z) k i p :
  In (i, p) (combine (seq k (length l)) l) -> (k <= i)%nat /\ nth_error l (i - k) = Some p.
Proof.
  revert k; induction l as [|x l IH]; intros k H; simpl in H; [contradiction|].
  destruct H as [H|H].
  - inversion H; subst. rewrite Nat.sub_diag. split; [lia|reflexivity].
  - destruct (IH (S k) H) as [Hle Hn]. split; [lia|].
    replace (i - k)%nat with (S (i - S k)) by lia. exact Hn.
Qed.

Lemma combine_seq_in (l : list Z) k i p :
  nth_error l i = Some p -> In (k + i, p)%nat (combine (seq k (length l)) l).
Proof.
  revert k i; induction l as [|x l IH]; intros k i H; [destruct i; discriminate|].
  destruct i as [|i]; simpl in H.
  - inversion H; subst. left. f_equal. lia.
  - right. replace (k + S i)%nat with (S k + i)%nat by lia. apply IH; assumption.
Qed.

Lemma map_snd_combine_seq (l : list Z) k : map snd (combine (seq k (length l)) l) = l.
Proof.
  revert k; induction l as [|x l IH]; intros k; simpl; [reflexivity|].
  rewrite IH; reflexivity.
Qed.

Lemma inv_init net ports : Inv net ports (init ports).
Proof.
  constructor; simpl.
  - apply repeat_length.
  - intros i p H. unfold active in H; simpl in H. rewrite app_nil_r in H.
    apply in_combine_seq in H. rewrite Nat.sub_0_r in H. apply H.
  - intros i f H. apply nth_error_In, repeat_spec in H. discriminate.
  - intros i H. assert (Hi : (i < length ports)%nat).
    { rewrite <- (repeat_length (@None fut) (length ports)).
      apply nth_error_Some. rewrite H. discriminate. }
    destruct (nth_error ports i) as [p|] eqn:E.
    + exists p. unfold active; simpl. rewrite app_nil_r.
      apply (combine_seq_in ports 0 i p E).
    + apply nth_error_None in E. lia.
  - unfold max_workers; lia.
  - rewrite app_nil_r. rewrite map_snd_combine_seq. reflexivity.
Qed.

Lemma inv_step net ports st st' :
  Inv net ports st -> step net st st' -> Inv net ports st'.
Proof.
  intros [Hlen Hact Hdone Hpend Hw Hatt] [a Ha].
  destruct a as [| |w|w]; simpl in Ha.
  - (* submit *)
    destruct (unsubmitted st) as [|t rest] eqn:Eu; [discriminate|].
    inversion Ha; subst st'; clear Ha.
    assert (Hp : Permutation (active (mkPool rest (work_queue st ++ [t]) (workers st)
                                            (slots st) (attempts st))) (active st)).
    { unfold active; simpl; rewrite Eu.
      rewrite <- app_assoc. simpl.
      rewrite !app_assoc. apply Permutation_sym, Permutation_middle. }
    constructor; simpl; auto.
    + intros i p H. apply Hact. eapply Permutation_in; eauto.
    + intros i H. destruct (Hpend i H) as [p Hp']. exists p.
      eapply Permutation_in; [apply Permutation_sym; exact Hp|exact Hp'].
    + eapply Permutation_trans; [|exact Hatt].
      apply Permutation_app_head. apply Permutation_map.
      rewrite app_assoc. apply Permutation_sym, Permutation_cons_append.
  - (* spawn *)
    destruct (Nat.ltb_spec (length (workers st)) max_workers) as [Hlt|]; [|discriminate].
    inversion Ha; subst st'; clear Ha.
    assert (Ha : active (mkPool (unsubmitted st) (work_queue st) (workers st ++ [None])
                                (slots st) (attempts st)) = active st).
    { unfold active; simpl. rewrite busy_app_none. reflexivity. }
    constructor; simpl; try rewrite Ha; auto.
    rewrite length_app; simpl; lia.
  - (* take *)
    destruct (work_queue st) as [|t rest] eqn:Eq; [discriminate|].
    destruct (nth_error (workers st) w) as [[t'|]|] eqn:Ew; try discriminate.
    inversion Ha; subst st'; clear Ha.
    assert (Hp : Permutation (active (mkPool (unsubmitted st) rest
                                (list_set (workers st) w (Some t)) (slots st)
                                (attempts st ++ [snd t]))) (active st)).
    { unfold active; simpl; rewrite Eq.
      apply Permutation_app_head. rewrite (busy_take _ _ t Ew).
      apply Permutation_sym, Permutation_middle. }
    constructor; simpl; auto.
    + intros i p H. apply Hact. eapply Permutation_in; eauto.
    + intros i H. destruct (Hpend i H) as [p Hp']. exists p.
      eapply Permutation_in; [apply Permutation_sym; exact Hp|exact Hp'].
    + rewrite length_list_set. assumption.
    + eapply Permutation_trans; [|exact Hatt].
      rewrite <- app_assoc. apply Permutation_app_head.
      rewrite !map_app. simpl. apply Permutation_middle.
  - (* finish *)
    destruct (nth_error (workers st) w) as [[[i p]|]|] eqn:Ew; try discriminate.
    inversion Ha; subst st'; clear Ha.
    set (st2 := mkPool (unsubmitted st) (work_queue st) (list_set (workers st) w None)
                       (list_set (slots st) i (Some (check_port net p))) (attempts st)).
    assert (Hp : Permutation (active st) ((i, p) :: active st2)).
    { unfold active, st2; simpl.
      rewrite (busy_finish _ _ _ Ew).
      rewrite !app_assoc. apply Permutation_sym, Permutation_middle. }
    assert (Hip : nth_error ports i = Some p).
    { apply Hact. eapply Permutation_in; [apply Permutation_sym; exact Hp|left; reflexivity]. }
    constructor; simpl.
    + rewrite length_list_set. assumption.
    + intros j q H. apply Hact. eapply Permutation_in; [apply Permutation_sym; exact Hp|].
      right; exact H.
    + intros j f H. rewrite nth_error_list_set in H.
      destruct (Nat.eqb_spec i j) as [Heq|Hne]; [subst j|].
      * destruct (nth_error (slots st) i); simpl in H; inversion H; subst.
        exists p; split; auto.
      * apply Hdone; assumption.
    + intros j H. rewrite nth_error_list_set in H.
      destruct (Nat.eqb_spec i j) as [Heq|Hne]; [subst j|].
      * destruct (nth_error (slots st) i); simpl in H; discriminate.
      * destruct (Hpend j H) as [q Hq]. exists q.
        apply (Permutation_in _ Hp) in Hq. destruct Hq as [Hq|Hq]; [|exact Hq].
        inversion Hq; subst; contradiction.
    + rewrite length_list_set. assumption.
    + assumption.
Qed.

Lemma inv_reachable net ports st :
  reachable net (init ports) st -> Inv net ports st.
Proof.
  induction 1 as [|st1 st2 _ IH Hs].
  - apply inv_init.
  - eapply inv_step; eauto.
Qed.

Lemma run_actions_reachable net acts st st' :
  run_actions net acts st = Some st' -> reachable net st st'.
Proof.
  assert (H : forall st0 st, reachable net st0 st ->
             run_actions net acts st = Some st' -> reachable net st0 st').
  { induction acts as [|a acts IH]; intros st0 st1 H0 H; simpl in H.
    - inversion H; subst; assumption.
    - destruct (apply_action net a st1) as [st2|] eqn:E; [|discriminate].
      apply (IH st0 st2); [|assumption].
      eapply reach_step; [exact H0|exists a; exact E]. }
  intros Hr. apply (H st st); [constructor|assumption].
Qed.

End PoolFacts.

(* ------------------------------------------------------------------ *)
(** ** The port scan: ordering, bounded concurrency, single attempts *)

Module PortScan.
Import Pool PoolFacts.

Lemma terminal_slots net ports st :
  Inv net ports st -> terminal st ->
  slots st = map (fun p => Some (check_port net p)) ports.
Proof.
  intros [Hlen Hact Hdone Hpend _ _] [Hu [Hq Hb]].
  apply nth_error_ext; intros n.
  rewrite nth_error_map.
  destruct (nth_error (slots st) n) as [[f|]|] eqn:E.
  - destruct (Hdone n f E) as [p [Hp ->]]. rewrite Hp. reflexivity.
  - destruct (Hpend n E) as [p Hp]. unfold active in Hp.
    rewrite Hu, Hq, Hb in Hp. contradiction.
  - apply nth_error_None in E. rewrite Hlen in E.
    apply nth_error_None in E. rewrite E. reflexivity.
Qed.

Lemma collect_slots_map (f : Z -> fut) l :
  collect_slots (map (fun p => Some (f p)) l) = Some (map f l).
Proof. induction l as [|x l IH]; simpl; try rewrite IH; reflexivity. Qed.

Lemma collect_terminal net ports st :
  reachable net (init ports) st -> terminal st ->
  collect st = Some (executor_map (check_port net) ports).
Proof.
  intros Hr Ht. unfold collect, executor_map.
  rewrite (terminal_slots net ports st (inv_reachable _ _ _ Hr) Ht).
  rewrite collect_slots_map. reflexivity.
Qed.

Lemma gather_values_fst net ps rs :
  gather (map (check_port net) ps) = ExValues rs -> map fst rs = ps.
Proof.
  revert rs; induction ps as [|p ps IH]; intros rs H; simpl in H.
  - inversion H; reflexivity.
  - unfold check_port at 1 in H. destruct (net p) as [c|]; [|discriminate].
    destruct (gather (map (check_port net) ps)) as [rs'|] eqn:E; [|discriminate].
    inversion H; subst. simpl. rewrite (IH rs' eq_refl). reflexivity.
Qed.

Lemma open_ports_sub serv rs x :
  In x (map fst (open_ports serv rs)) -> In x (map fst rs).
Proof.
  induction rs as [|[p [|]] rs IH]; simpl; intros H; auto.
  destruct H as [H|H]; auto.
Qed.

Lemma open_ports_sorted serv rs :
  StronglySorted Z.lt (map fst rs) -> StronglySorted Z.lt (map fst (open_ports serv rs)).
Proof.
  induction rs as [|[p b] rs IH]; simpl; intros H; [constructor|].
  apply StronglySorted_inv in H as [H1 H2].
  destruct b; simpl; [|auto].
  constructor; [auto|].
  apply Forall_forall; intros x Hx.
  apply (proj1 (Forall_forall _ _) H2). eapply open_ports_sub; eauto.
Qed.

Lemma common_ports_sorted : StronglySorted Z.lt common_ports.
Proof.
  apply Sorted_StronglySorted; [intros x y z; apply Z.lt_trans|].
  unfold common_ports; repeat constructor.
Qed.

Lemma common_ports_nodup : NoDup common_ports.
Proof.
  pose proof common_ports_sorted as H.
  induction H as [|x l _ IH HF]; constructor; auto.
  intros Hin. rewrite Forall_forall in HF. specialize (HF x Hin). lia.
Qed.

Lemma gather_no_raise net ps :
  (forall p, In p ps -> net p <> None) ->
  gather (map (check_port net) ps)
  = ExValues (map (fun p => (p, match net p with Some c => Z.eqb c 0 | None => false end)) ps).
Proof.
  induction ps as [|p ps IH]; intros H; simpl; [reflexivity|].
  unfold check_port at 1. destruct (net p) as [c|] eqn:E.
  - rewrite IH; [reflexivity|]. intros q Hq. apply H; right; exact Hq.
  - exfalso. apply (H p); [left; reflexivity|exact E].
Qed.

(** C1.  Whatever the interleaving of the pool (submissions, thread
    creation, the order in which workers take and complete the attempts),
    once the executor is done the results the scan collects are those of
    [executor_map], in port-list order: two runs with the same per-port
    outcomes collect the same results, the result list follows
    [common_ports], and the ports recorded in [port_scan] are strictly
    ascending. *)
Theorem port_scan_order_deterministic (net : connector) (serv : Z -> option string)
    (st1 st2 : pool) :
  reachable net (init common_ports) st1 -> terminal st1 ->
  reachable net (init common_ports) st2 -> terminal st2 ->
  collect st1 = Some (executor_map (check_port net) common_ports) /\
  collect st1 = collect st2 /\
  (forall rs, collect st1 = Some (ExValues rs) ->
     map fst rs = common_ports /\
     StronglySorted Z.lt (map fst (open_ports serv rs))).
Proof.
  intros H1 T1 H2 T2.
  pose proof (collect_terminal _ _ _ H1 T1) as E1.
  pose proof (collect_terminal _ _ _ H2 T2) as E2.
  split; [exact E1|split; [congruence|]].
  intros rs Hrs. rewrite E1 in Hrs. injection Hrs as Hrs.
  pose proof (gather_values_fst _ _ _ Hrs) as Hf.
  split; [exact Hf|].
  apply open_ports_sorted. rewrite Hf. apply common_ports_sorted.
Qed.

(** C2.  In every reachable state of the pool, whatever the port list,
    at most [max_workers] (10) connection attempts are in flight. *)
Theorem in_flight_bounded (ports : list Z) (net : connector) (st : pool) :
  reachable net (init ports) st -> (in_flight st <= max_workers)%nat.
Proof.
  intros Hr. pose proof (inv_workers _ _ _ (inv_reachable _ _ _ Hr)) as Hw.
  unfold in_flight. pose proof (busy_length (workers st)). lia.
Qed.

End PortScan.

(* ------------------------------------------------------------------ *)
(** ** Effects of the collectors *)

Module ReconFacts.
Import Classifier Json Pool Recon.
Local Open Scope list_scope.

Lemma key_eqb_spec k1 k2 : key_eqb k1 k2 = true <-> k1 = k2.
Proof.
  destruct k1, k2; simpl; split; intros H; try discriminate.
  - apply String.eqb_eq in H; subst; reflexivity.
  - inversion H; subst; apply String.eqb_refl.
  - apply Z.eqb_eq in H; subst; reflexivity.
  - inversion H; subst; apply Z.eqb_refl.
Qed.

Lemma dict_get_set {A} k k' (v : A) d :
  dict_get k (dict_set k' v d) = if key_eqb k k' then Some v else dict_get k d.
Proof.
  induction d as [|[k0 v0] d IH]; simpl.
  - destruct (key_eqb k k'); reflexivity.
  - destruct (key_eqb k' k0) eqn:E1; simpl.
    + apply key_eqb_spec in E1; subst k0.
      destruct (key_eqb k k'); reflexivity.
    + destruct (key_eqb k k0) eqn:E2; [|exact IH].
      apply key_eqb_spec in E2; subst k0.
      destruct (key_eqb k k') eqn:E3; [|reflexivity].
      apply key_eqb_spec in E3; subst k'.
      rewrite (proj2 (key_eqb_spec k k) eq_refl) in E1. discriminate.
Qed.

Lemma bind_ok {A B} (m : M A) (f : A -> M B) st a st' :
  m st = (Ok a, st') -> bind m f st = f a st'.
Proof. intros H; unfold bind; rewrite H; reflexivity. Qed.

Lemma bind_exc {A B} (m : M A) (f : A -> M B) st x st' :
  m st = (Exc x, st') -> bind m f st = (Exc x, st').
Proof. intros H; unfold bind; rewrite H; reflexivity. Qed.

Definition no_connect (l : list call) : Prop :=
  forall ip p, ~ In (CConnect ip p) l.

Lemma no_connect_nil : no_connect [].
Proof. intros ip p H; exact H. Qed.

(** A report field that is either a result dict or the given marker. *)
Definition tagged (o : option pyval) (marker : string) : Prop :=
  o = Some (PStr marker) \/ exists d, o = Some (PDict d).

Lemma get_ip_eff e t st :
  exists o st', get_ip e t st = (o, st') /\
  (exists l, trace st' = trace st ++ l /\ no_connect l) /\
  ((is_ip_address t = true /\ o = Ok (Some t) /\ st' = st) \/
   (is_ip_address t = false /\
    ((exists ip, o = Ok (Some ip) /\
                 results st' = dict_set (KStr "ip_address") (PStr ip) (results st)) \/
     (o = Ok None /\
      results st' = dict_set (KStr "ip_address") (PStr not_found) (results st)) \/
     (exists x, o = Exc x)))).
Proof.
  unfold get_ip. destruct (is_ip_address t) eqn:Ei.
  - do 2 eexists; split; [reflexivity|]. split.
    + exists []. rewrite app_nil_r. split; [reflexivity|apply no_connect_nil].
    + left; auto.
  - unfold bind, emit, set_result, ret, raise; simpl.
    destruct (gethostbyname e t) as [ip|[| | |]];
      (do 2 eexists; split; [reflexivity|]; split;
       [exists [CResolve t]; split;
          [reflexivity|intros a b [H|H]; [discriminate|exact H]]|]);
      right; split; auto; simpl; eauto.
Qed.

Lemma get_whois_eff e t st :
  exists v, get_whois e t st
            = (Ok tt, mkState (dict_set (KStr "whois") v (results st)) (trace st ++ [CWhois t]))
          /\ (v = PStr whois_failed \/ exists d, v = PDict d).
Proof.
  unfold get_whois, bind, emit, set_result; simpl.
  destruct (whois_query e t) as [w|]; eexists; split; try reflexivity.
  - right; eexists; reflexivity.
  - left; reflexivity.
Qed.

Lemma dns_loop_eff e t rts acc st :
  NoDup rts ->
  exists d, dns_loop e t rts acc st
            = (Ok d, mkState (results st) (trace st ++ map (CDns t) rts)) /\
     (forall rt, In rt rts ->
        dict_get (KStr rt) d = match dns_resolve e t rt with
                               | Some rs => Some (PList (map PStr rs))
                               | None => dict_get (KStr rt) acc
                               end) /\
     (forall rt, ~ In rt rts -> dict_get (KStr rt) d = dict_get (KStr rt) acc).
Proof.
  revert acc st; induction rts as [|r rts IH]; intros acc st Hnd.
  - exists acc. simpl. rewrite app_nil_r. destruct st; repeat split; auto.
    intros rt [].
  - inversion Hnd as [|? ? Hr Hnd']; subst.
    simpl. unfold bind at 1, emit at 1.
    set (st1 := mkState (results st) (trace st ++ [CDns t r])).
    set (acc' := match dns_resolve e t r with
                 | Some rs => dict_set (KStr r) (PList (map PStr rs)) acc
                 | None => acc end).
    destruct (IH acc' st1 Hnd') as [d [Hrun [Hin Hout]]].
    exists d. split; [|split].
    + unfold acc' in Hrun.
      destruct (dns_resolve e t r); rewrite Hrun; simpl; rewrite <- app_assoc; reflexivity.
    + intros rt [Heq|Hrt]; [subst rt|].
      * rewrite (Hout r Hr). unfold acc'.
        destruct (dns_resolve e t r); [|reflexivity].
        rewrite dict_get_set, (proj2 (key_eqb_spec _ _) eq_refl). reflexivity.
      * rewrite (Hin rt Hrt). destruct (dns_resolve e t rt); [reflexivity|].
        unfold acc'. destruct (dns_resolve e t r); [|reflexivity].
        rewrite dict_get_set. destruct (key_eqb (KStr rt) (KStr r)) eqn:E; [|reflexivity].
        apply key_eqb_spec in E. inversion E; subst. contradiction.
    + intros rt Hrt. rewrite (Hout rt (fun H => Hrt (or_intror H))).
      unfold acc'. destruct (dns_resolve e t r); [|reflexivity].
      rewrite dict_get_set. destruct (key_eqb (KStr rt) (KStr r)) eqn:E; [|reflexivity].
      apply key_eqb_spec in E. inversion E; subst. exfalso; apply Hrt; left; reflexivity.
Qed.

Lemma record_types_nodup : NoDup record_types.
Proof.
  unfold record_types.
  repeat (constructor; [simpl; intuition discriminate|]). constructor.
Qed.

Lemma get_dns_eff e t st :
  exists v l, get_dns_records e t st
              = (Ok tt, mkState (dict_set (KStr "dns_records") v (results st)) (trace st ++ l))
            /\ no_connect l /\ (v = PStr dns_skipped \/ exists d, v = PDict d).
Proof.
  unfold get_dns_records. destruct (is_ip_address t).
  - exists (PStr dns_skipped), []. rewrite app_nil_r.
    split; [reflexivity|split; [apply no_connect_nil|left; reflexivity]].
  - destruct (dns_loop_eff e t record_types [] st record_types_nodup) as [d [Hd _]].
    exists (PDict d), (map (CDns t) record_types).
    split; [unfold bind; rewrite Hd; reflexivity|split].
    + intros ip p H. apply in_map_iff in H as [x [H _]]. discriminate.
    + right; eexists; reflexivity.
Qed.

Lemma emit_connects_eff a ports st :
  fold_right (fun p m => emit (CConnect a p);;; m) (ret tt) ports st
  = (Ok tt, mkState (results st) (trace st ++ map (CConnect a) ports)).
Proof.
  revert st; induction ports as [|p ps IH]; intros st; simpl.
  - rewrite app_nil_r. destruct st; reflexivity.
  - unfold bind at 1, emit at 1. rewrite IH. simpl. rewrite <- app_assoc. reflexivity.
Qed.

Lemma scan_eff e ip st :
  exists o st', scan_common_ports e ip st = (o, st') /\
  (exists l, trace st' = trace st ++ l /\ (ip = None -> l = [])) /\
  ((exists v, o = Ok tt /\
              results st' = dict_set (KStr "port_scan") v (results st) /\
              (v = PStr scan_skipped \/ exists d, v = PDict d) /\
              (ip = None -> v = PStr scan_skipped)) \/
   (exists x, o = Exc x /\ ip <> None)).
Proof.
  unfold scan_common_ports. destruct ip as [a|].
  - destruct (String.eqb a "").
    + do 2 eexists; split; [reflexivity|]. split.
      * exists []. rewrite app_nil_r. split; [reflexivity|discriminate].
      * left. eexists; split; [reflexivity|split; [reflexivity|split; [left; reflexivity|discriminate]]].
    + destruct (executor_map (check_port (connect_ex e a)) common_ports) as [rs|];
        rewrite (bind_ok _ _ _ _ _ (emit_connects_eff a _ st)).
      * do 2 eexists; split; [reflexivity|]. split.
        -- eexists; split; [reflexivity|discriminate].
        -- left. eexists; split; [reflexivity|split; [reflexivity|split; [right; eexists; reflexivity|discriminate]]].
      * do 2 eexists; split; [reflexivity|]. split.
        -- eexists; split; [reflexivity|discriminate].
        -- right. eexists; split; [reflexivity|discriminate].
  - do 2 eexists; split; [reflexivity|]. split.
    + exists []. rewrite app_nil_r. split; reflexivity.
    + left. eexists; split; [reflexivity|split; [reflexivity|split; [left; reflexivity|reflexivity]]].
Qed.

(** The results after [get_http_headers]. *)
Definition http_res (e : env) (t : string) (r : list (key * pyval)) : list (key * pyval) :=
  match http_get e ("https://" ++ t)%string 5 with
  | Some h => dict_set (KStr "https_headers") (header_dict h) r
  | None =>
      match http_get e ("http://" ++ t)%string 5 with
      | Some h => dict_set (KStr "http_headers") (header_dict h) r
      | None => r
      end
  end.

Lemma http_eff e t st :
  exists l, get_http_headers e t st = (Ok tt, mkState (http_res e t (results st)) (trace st ++ l))
          /\ no_connect l.
Proof.
  unfold http_res.
  destruct (http_get e ("https://" ++ t)%string 5) as [h|] eqn:E1;
  [|destruct (http_get e ("http://" ++ t)%string 5) as [h|] eqn:E2];
  unfold get_http_headers, http_loop, bind, emit, set_result, ret; simpl in *;
  try rewrite E1; try rewrite E2.
  - eexists; split; [reflexivity|]. intros a b [H|H]; [discriminate|exact H].
  - eexists; split; [simpl; rewrite <- ?app_assoc; reflexivity|].
    intros a b [H|[H|H]]; try discriminate; exact H.
  - eexists; split; [simpl; rewrite <- ?app_assoc; destruct st; reflexivity|].
    intros a b [H|[H|H]]; try discriminate; exact H.
Qed.

Lemma save_eff e t st :
  exists o l, save_results e t st = (o, mkState (results st) (trace st ++ l)) /\ no_connect l.
Proof.
  unfold save_results. destruct (can_write e (t ++ "_recon.json")%string).
  - do 2 eexists; split; [reflexivity|]. intros a b [H|H]; [discriminate|exact H].
  - destruct (open_fails e (t ++ "_recon.json")%string).
    + exists (Exc WriteError), []. rewrite app_nil_r. destruct st.
      split; [reflexivity|apply no_connect_nil].
    + do 2 eexists; split; [reflexivity|]. intros a b [H|H]; [discriminate|exact H].
Qed.

Lemma stage_ip e t st :
  get_ip e t st =
  if is_ip_address t then (Ok (Some t), st)
  else match gethostbyname e t with
       | inl ip => (Ok (Some ip), mkState (dict_set (KStr "ip_address") (PStr ip) (results st))
                                          (trace st ++ [CResolve t]))
       | inr GaiError => (Ok None, mkState (dict_set (KStr "ip_address") (PStr not_found)
                                                     (results st))
                                           (trace st ++ [CResolve t]))
       | inr x => (Exc x, mkState (results st) (trace st ++ [CResolve t]))
       end.
Proof.
  unfold get_ip. destruct (is_ip_address t); [reflexivity|].
  unfold bind, emit, set_result, ret, raise; simpl.
  destruct (gethostbyname e t) as [ip|[| | |]]; reflexivity.
Qed.

Lemma no_connect_app l1 l2 : no_connect l1 -> no_connect l2 -> no_connect (l1 ++ l2).
Proof. intros H1 H2 a b H. apply in_app_or in H as [H|H]; [exact (H1 a b H)|exact (H2 a b H)]. Qed.

End ReconFacts.

(* ------------------------------------------------------------------ *)
(** ** The resolver, the collectors and the report *)

Module Collectors.
Import Classifier Json Pool Recon ReconFacts.
Local Open Scope list_scope.

Lemma dict_get_http_res e t r k :
  k <> KStr "https_headers" -> k <> KStr "http_headers" ->
  dict_get k (http_res e t r) = dict_get k r.
Proof.
  intros H1 H2. unfold http_res.
  destruct (http_get e ("https://" ++ t)%string 5);
    [|destruct (http_get e ("http://" ++ t)%string 5)]; try reflexivity;
    rewrite dict_get_set; destruct (key_eqb _ _) eqn:E; try reflexivity;
    apply key_eqb_spec in E; subst; contradiction.
Qed.

(** C6 (the code departs from the claim).  An address target is returned
    unchanged and the state (results and trace of outside calls) is
    untouched; for a hostname, one resolution call is made: on success its
    address is recorded and returned; a [socket.gaierror] gives [None] and
    records ["Not found"] without raising; but any other exception of the
    call (such as the [UnicodeError] of the idna encoding) is not caught: it
    propagates out of [get_ip] and ends the run, with nothing recorded and
    no report written. *)
Theorem get_ip_resolution (e : env) (target : string) (st : rstate) :
  (is_ip_address target = true -> get_ip e target st = (Ok (Some target), st)) /\
  (is_ip_address target = false -> forall ip, gethostbyname e target = inl ip ->
   get_ip e target st
   = (Ok (Some ip), mkState (dict_set (KStr "ip_address") (PStr ip) (results st))
                            (trace st ++ [CResolve target]))) /\
  (is_ip_address target = false -> gethostbyname e target = inr GaiError ->
   get_ip e target st
   = (Ok None, mkState (dict_set (KStr "ip_address") (PStr not_found) (results st))
                       (trace st ++ [CResolve target]))) /\
  (is_ip_address target = false -> forall x, gethostbyname e target = inr x ->
   x <> GaiError ->
   get_ip e target st = (Exc x, mkState (results st) (trace st ++ [CResolve target])) /\
   run_recon e target = (Exc x, mkState [] [CResolve target])).
Proof.
  assert (G : forall st', is_ip_address target = false -> forall x,
             gethostbyname e target = inr x -> x <> GaiError ->
             get_ip e target st' = (Exc x, mkState (results st') (trace st' ++ [CResolve target]))).
  { intros st' H x Hg Hx. unfold get_ip. rewrite H. unfold bind, emit, raise; simpl.
    rewrite Hg. destruct x; [contradiction|reflexivity|reflexivity|reflexivity]. }
  split; [|split; [|split]].
  - intros H. unfold get_ip. rewrite H. reflexivity.
  - intros H ip Hg. unfold get_ip. rewrite H. unfold bind, emit, set_result, ret; simpl.
    rewrite Hg. reflexivity.
  - intros H Hg. unfold get_ip. rewrite H. unfold bind, emit, set_result, ret; simpl.
    rewrite Hg. reflexivity.
  - intros H x Hg Hx. split; [exact (G st H x Hg Hx)|].
    unfold run_recon. rewrite (bind_exc _ _ _ _ _ (G (mkState [] []) H x Hg Hx)).
    reflexivity.
Qed.

(** C7.  [get_http_headers] requests [https] first, with a 5 second
    timeout; when it succeeds its headers are recorded and [http] is never
    requested; otherwise [http] is requested, also with a 5 second timeout;
    when both fail nothing is recorded. *)
Theorem http_headers_first_success (e : env) (target : string) (st : rstate) :
  (forall h, http_get e ("https://" ++ target)%string 5 = Some h ->
   get_http_headers e target st
   = (Ok tt, mkState (dict_set (KStr "https_headers") (header_dict h) (results st))
                     (trace st ++ [CHttp ("https://" ++ target) 5]))) /\
  (forall h, http_get e ("https://" ++ target)%string 5 = None ->
   http_get e ("http://" ++ target)%string 5 = Some h ->
   get_http_headers e target st
   = (Ok tt, mkState (dict_set (KStr "http_headers") (header_dict h) (results st))
                     (trace st ++ [CHttp ("https://" ++ target) 5;
                                   CHttp ("http://" ++ target) 5]))) /\
  (http_get e ("https://" ++ target)%string 5 = None ->
   http_get e ("http://" ++ target)%string 5 = None ->
   get_http_headers e target st
   = (Ok tt, mkState (results st)
                     (trace st ++ [CHttp ("https://" ++ target) 5;
                                   CHttp ("http://" ++ target) 5]))).
Proof.
  unfold get_http_headers, http_loop, bind, emit, set_result, ret.
  split; [|split]; intros; simpl in *; rewrite ?H, ?H0; simpl;
    rewrite <- ?app_assoc; reflexivity.
Qed.

(** C8.  For an address target no DNS query is made and [dns_records] is
    the skip marker; for a hostname exactly one query per record type is
    made, in the order of [record_types], nothing raises, and the mapping
    holds the records of exactly the types whose query succeeded. *)
Theorem dns_records_contract (e : env) (target : string) (st : rstate) :
  (is_ip_address target = true ->
   get_dns_records e target st
   = (Ok tt, mkState (dict_set (KStr "dns_records") (PStr dns_skipped) (results st))
                     (trace st))) /\
  (is_ip_address target = false ->
   exists d,
     get_dns_records e target st
     = (Ok tt, mkState (dict_set (KStr "dns_records") (PDict d) (results st))
                       (trace st ++ map (CDns target) record_types)) /\
     (forall rt, In rt record_types ->
        dict_get (KStr rt) d
        = option_map (fun rs => PList (map PStr rs)) (dns_resolve e target rt)) /\
     (forall rt, ~ In rt record_types -> dict_get (KStr rt) d = None)).
Proof.
  unfold get_dns_records. split.
  - intros H; rewrite H; reflexivity.
  - intros H; rewrite H.
    destruct (dns_loop_eff e target record_types [] st record_types_nodup)
      as [d [Hd [Hin Hout]]].
    exists d. split; [unfold bind; rewrite Hd; reflexivity|split].
    + intros rt Hrt. rewrite (Hin rt Hrt). destruct (dns_resolve e target rt); reflexivity.
    + intros rt Hrt. rewrite (Hout rt Hrt). reflexivity.
Qed.

(** C3.  When the resolver yields [None] (a hostname whose resolution
    failed with [socket.gaierror]), the report's [port_scan] is the skip
    marker and no connection attempt is made during the whole run. *)
Theorem unresolved_skips_port_scan (e : env) (target : string) :
  fst (get_ip e target (mkState [] [])) = Ok None ->
  dict_get (KStr "port_scan") (final_results e target) = Some (PStr scan_skipped) /\
  no_connect (trace (snd (run_recon e target))).
Proof.
  intros Hip. unfold final_results, run_recon.
  destruct (get_ip_eff e target (mkState [] []))
    as [o1 [st1 [Hg [[l1 [Ht1 Hn1]] _]]]].
  rewrite Hg in Hip; simpl in Hip; subst o1.
  rewrite (bind_ok _ _ _ _ _ Hg); cbv beta.
  destruct (get_whois_eff e target st1) as [v2 [Hw _]].
  rewrite (bind_ok _ _ _ _ _ Hw); cbv beta.
  destruct (get_dns_eff e target
              (mkState (dict_set (KStr "whois") v2 (results st1)) (trace st1 ++ [CWhois target])))
    as [v3 [l3 [Hd [Hn3 _]]]].
  rewrite (bind_ok _ _ _ _ _ Hd); cbv beta.
  match goal with |- context [bind (scan_common_ports e None) _ ?st] =>
    destruct (scan_eff e None st) as [o4 [st4 [Hs [[l4 [Ht4 Hl4]] Hcase]]]] end.
  destruct Hcase as [[v [Ho [Hr [_ Hv]]]]|[x [_ Hne]]]; [|contradiction].
  subst o4. rewrite (bind_ok _ _ _ _ _ Hs); cbv beta.
  destruct (http_eff e target st4) as [l5 [Hh Hn5]].
  rewrite (bind_ok _ _ _ _ _ Hh).
  match goal with |- context [save_results e target ?st] =>
    destruct (save_eff e target st) as [o6 [l6 [Hsv Hn6]]] end.
  rewrite Hsv. simpl. split.
  - rewrite dict_get_http_res by discriminate.
    rewrite Hr, dict_get_set, (Hv eq_refl). reflexivity.
  - rewrite Ht4, (Hl4 eq_refl). simpl. rewrite Ht1, app_nil_r.
    repeat apply no_connect_app; auto.
    all: intros a b H; simpl in H; intuition discriminate.
Qed.

(** C5 (as amended).  When the run completes, [whois], [dns_records] and
    [port_scan] are always present, each a result dict or its marker; for a
    hostname target [ip_address] holds the resolved address or ["Not found"],
    and for an address target there is no [ip_address]; the HTTP headers are recorded
    (under [https_headers] or [http_headers]) exactly when a protocol
    succeeded, and no HTTP entry at all is present when both failed. *)
Theorem report_fields_tagged (e : env) (target : string) :
  fst (run_recon e target) = Ok tt ->
  tagged (dict_get (KStr "whois") (final_results e target)) whois_failed /\
  tagged (dict_get (KStr "dns_records") (final_results e target)) dns_skipped /\
  tagged (dict_get (KStr "port_scan") (final_results e target)) scan_skipped /\
  (is_ip_address target = true ->
   dict_get (KStr "ip_address") (final_results e target) = None) /\
  (is_ip_address target = false ->
   dict_get (KStr "ip_address") (final_results e target)
   = Some (PStr (match gethostbyname e target with
                 | inl ip => ip
                 | inr _ => not_found
                 end))) /\
  ((http_get e ("https://" ++ target)%string 5 = None /\
    http_get e ("http://" ++ target)%string 5 = None) <->
   (dict_get (KStr "https_headers") (final_results e target) = None /\
    dict_get (KStr "http_headers") (final_results e target) = None)).
Proof.
  intros Hok. unfold final_results. unfold run_recon in *.
  destruct (get_ip_eff e target (mkState [] [])) as [o1 [st1 [Hg [_ Hc1]]]].
  destruct o1 as [ip|x]; [|rewrite (bind_exc _ _ _ _ _ Hg) in Hok; discriminate].
  assert (R1 : forall k, k <> KStr "ip_address" -> dict_get k (results st1) = None).
  { intros k Hk.
    destruct Hc1 as [[_ [_ Heq]]|[_ [[ip' [_ Hr]]|[[_ Hr]|[x Hx]]]]];
      [subst st1; reflexivity| | |discriminate];
      rewrite Hr, dict_get_set; destruct (key_eqb _ _) eqn:E; try reflexivity;
      apply key_eqb_spec in E; contradiction. }
  assert (R2 : is_ip_address target = false ->
               dict_get (KStr "ip_address") (results st1)
               = Some (PStr (match gethostbyname e target with
                             | inl ip => ip
                             | inr _ => not_found
                             end))).
  { intros Hi. rewrite stage_ip, Hi in Hg.
    destruct (gethostbyname e target) as [ip'|[| | |]]; inversion Hg; subst; reflexivity. }
  assert (R3 : is_ip_address target = true ->
               dict_get (KStr "ip_address") (results st1) = None).
  { intros Hi. rewrite stage_ip, Hi in Hg. inversion Hg; subst. reflexivity. }
  clear Hc1.
  rewrite (bind_ok _ _ _ _ _ Hg) in *; cbv beta in *.
  destruct (get_whois_eff e target st1) as [v2 [Hw Hv2]].
  rewrite (bind_ok _ _ _ _ _ Hw) in *; cbv beta in *.
  destruct (get_dns_eff e target
              (mkState (dict_set (KStr "whois") v2 (results st1)) (trace st1 ++ [CWhois target])))
    as [v3 [l3 [Hd [_ Hv3]]]].
  rewrite (bind_ok _ _ _ _ _ Hd) in *; cbv beta in *.
  match goal with |- context [bind (scan_common_ports e ip) _ ?st] =>
    destruct (scan_eff e ip st) as [o4 [st4 [Hs [_ Hcase]]]] end.
  destruct Hcase as [[v4 [Ho [Hr [Hv4 _]]]]|[x [Hx _]]];
    [|subst o4; rewrite (bind_exc _ _ _ _ _ Hs) in Hok; discriminate].
  subst o4. rewrite (bind_ok _ _ _ _ _ Hs) in *; cbv beta in *.
  destruct (http_eff e target st4) as [l5 [Hh _]].
  rewrite (bind_ok _ _ _ _ _ Hh) in *.
  match goal with |- context [save_results e target ?st] =>
    destruct (save_eff e target st) as [o6 [l6 [Hsv _]]] end.
  rewrite Hsv. simpl. rewrite Hr. simpl.
  split; [|split; [|split; [|split; [|split]]]].
  - rewrite dict_get_http_res by discriminate. rewrite !dict_get_set. simpl.
    destruct Hv2 as [->|[d ->]]; [left|right; exists d]; reflexivity.
  - rewrite dict_get_http_res by discriminate. rewrite !dict_get_set. simpl.
    destruct Hv3 as [->|[d ->]]; [left|right; exists d]; reflexivity.
  - rewrite dict_get_http_res by discriminate. rewrite !dict_get_set. simpl.
    destruct Hv4 as [->|[d ->]]; [left|right; exists d]; reflexivity.
  - intros Hi. rewrite dict_get_http_res by discriminate. rewrite !dict_get_set. simpl.
    apply R3; exact Hi.
  - intros Hi. rewrite dict_get_http_res by discriminate. rewrite !dict_get_set. simpl.
    apply R2; exact Hi.
  - unfold http_res.
    destruct (http_get e ("https://" ++ target)%string 5) eqn:E1;
      [|destruct (http_get e ("http://" ++ target)%string 5) eqn:E2];
      rewrite ?dict_get_set; simpl in *; rewrite ?E1, ?E2;
      rewrite ?R1 by discriminate;
      first [ split; intros [A _]; discriminate
            | split; intros [_ A]; discriminate
            | split; intros _; split; reflexivity ].
Qed.

End Collectors.

(* ------------------------------------------------------------------ *)
(** ** The classifier *)

Module ClassifierFacts.
Import Classifier.

Lemma forallb_app_digits g l :
  forallb is_digit g = true -> forall c, In c (g ++ l)%list -> is_digit c = true \/ In c l.
Proof.
  intros Hg c Hc. apply in_app_or in Hc as [Hc|Hc]; [left|right; exact Hc].
  rewrite forallb_forall in Hg. apply Hg, Hc.
Qed.

Lemma dotted_quad_chars s :
  spec_dotted_quad s ->
  forall c, In c (list_ascii_of_string s) -> is_digit c = true \/ c = "."%char.
Proof.
  intros [g1 [g2 [g3 [g4 [[_ H1] [[_ H2] [[_ H3] [[_ H4] Hs]]]]]]]] c Hc.
  rewrite Hs in Hc.
  destruct (forallb_app_digits _ _ H1 c Hc) as [|Hc1]; [left; assumption|].
  destruct Hc1 as [<-|Hc1]; [right; reflexivity|].
  destruct (forallb_app_digits _ _ H2 c Hc1) as [|Hc2]; [left; assumption|].
  destruct Hc2 as [<-|Hc2]; [right; reflexivity|].
  destruct (forallb_app_digits _ _ H3 c Hc2) as [|Hc3]; [left; assumption|].
  destruct Hc3 as [<-|Hc3]; [right; reflexivity|].
  left. rewrite forallb_forall in H4. apply H4, Hc3.
Qed.

(** C9 (code defect).  [is_ip_address] accepts ["1.2.3.4\n"]: Python's [$]
    also matches just before a final newline, so a dotted quad followed by
    a newline is classified as an address although it is not four digit
    groups separated by periods. *)
Theorem is_ip_address_trailing_newline :
  is_ip_address ("1.2.3.4" ++ String newline "") = true /\
  ~ spec_dotted_quad ("1.2.3.4" ++ String newline "").
Proof.
  split; [reflexivity|].
  intros H. destruct (dotted_quad_chars _ H newline) as [Hd|Hd].
  - simpl; tauto.
  - discriminate.
  - discriminate.
Qed.

End ClassifierFacts.

(* ------------------------------------------------------------------ *)
(** ** Serialization of the report *)

Module JsonFacts.
Import Json.

Definition pyval_ind' (P : pyval -> Prop)
  (HNone : P PNone) (HStr : forall s, P (PStr s)) (HInt : forall z, P (PInt z))
  (HList : forall l, Forall P l -> P (PList l))
  (HDict : forall d, Forall (fun kv => P (snd kv)) d -> P (PDict d)) :
  forall v, P v :=
  fix F v :=
    match v with
    | PNone => HNone
    | PStr s => HStr s
    | PInt z => HInt z
    | PList l =>
        HList l ((fix G l := match l return Forall P l with
                             | [] => Forall_nil _
                             | x :: l' => Forall_cons _ (F x) (G l')
                             end) l)
    | PDict d =>
        HDict d ((fix G d := match d return Forall (fun kv => P (snd kv)) d with
                             | [] => Forall_nil _
                             | (k, x) :: d' => Forall_cons (A := key * pyval) (k, x) (F x) (G d')
                             end) d)
    end.

Lemma dict_set_fresh {A} k (v : A) d :
  ~ In k (map fst d) -> dict_set k v d = (d ++ [(k, v)])%list.
Proof.
  induction d as [|[k' v'] d IH]; simpl; intros H; [reflexivity|].
  destruct (key_eqb k k') eqn:E.
  - apply ReconFacts.key_eqb_spec in E; subst. exfalso; apply H; left; reflexivity.
  - rewrite IH; [reflexivity|]. intros Hin; apply H; right; exact Hin.
Qed.

Lemma nodupb_cons x l : nodupb (x :: l) = true -> ~ In x l /\ nodupb l = true.
Proof.
  simpl. intros H. apply andb_prop in H as [H1 H2]. split; [|exact H2].
  intros Hin. apply negb_true_iff in H1.
  assert (existsb (String.eqb x) l = true) by (apply existsb_exists; exists x;
    split; [exact Hin|apply String.eqb_refl]).
  congruence.
Qed.

Lemma fold_dict_set kvs (acc : list (key * pyval)) :
  nodupb (map fst kvs) = true ->
  (forall s, In s (map fst kvs) -> ~ In (KStr s) (map fst acc)) ->
  fold_left (fun d kv => dict_set (KStr (fst kv)) (of_json (snd kv)) d) kvs acc
  = (acc ++ map (fun kv => (KStr (fst kv), of_json (snd kv))) kvs)%list.
Proof.
  revert acc; induction kvs as [|[s j] kvs IH]; intros acc Hnd Hfresh; simpl.
  - rewrite app_nil_r; reflexivity.
  - apply nodupb_cons in Hnd as [Hs Hnd].
    rewrite dict_set_fresh by (apply Hfresh; left; reflexivity).
    rewrite IH; [rewrite <- app_assoc; reflexivity|exact Hnd|].
    intros s' Hs' Hin. rewrite map_app in Hin. apply in_app_or in Hin as [Hin|[Hin|[]]].
    + apply (Hfresh s'); [right; exact Hs'|exact Hin].
    + inversion Hin; subst. contradiction.
Qed.

(** C10 (as amended).  [json.load] of what [json.dump] wrote gives back
    the value with every dict key in its JSON string form: [str] keys are
    unchanged and the [int] port keys of [port_scan] become their decimal
    strings; everything else is identical. *)
Theorem json_roundtrip (v : pyval) :
  keys_unique v = true -> of_json (to_json v) = keys_to_str v.
Proof.
  induction v as [| s | z | l IH | d IH] using pyval_ind'; intros H; try reflexivity.
  - simpl. f_equal. rewrite map_map. simpl in H.
    induction IH as [|x l Hx _ IHl]; [reflexivity|].
    simpl in H. apply andb_prop in H as [H1 H2].
    simpl. rewrite (Hx H1), (IHl H2). reflexivity.
  - simpl in H. apply andb_prop in H as [Hnd Hall]. simpl.
    rewrite fold_dict_set.
    + simpl. f_equal. rewrite map_map. simpl.
      clear Hnd. induction IH as [|[k x] d Hx _ IHd]; [reflexivity|].
      simpl in Hall, Hx. apply andb_prop in Hall as [H1 H2]. simpl.
      rewrite (Hx H1), (IHd H2). reflexivity.
    + rewrite map_map. exact Hnd.
    + intros s _ [].
Qed.

End JsonFacts.

(* ------------------------------------------------------------------ *)
(** ** The language of the classifier *)

Module RegexFacts.
Import Classifier Views.


Lemma rmatch_rep_O r lo s k : rmatch (RRep r lo 0) s k = Nat.eqb lo 0 && k s.
Proof. reflexivity. Qed.

Lemma rmatch_rep_S r lo h s k :
  rmatch (RRep r lo (S h)) s k
  = rmatch r s (fun s' => rmatch (RRep r (pred lo) h) s' k) || (Nat.eqb lo 0 && k s).
Proof. reflexivity. Qed.

Lemma rmatch_derives r : forall s k,
  rmatch r s k = true <-> exists s', derives r s s' /\ k s' = true.
Proof.
  induction r as [| c0 | r1 IH1 r2 IH2 | r IH lo hi |]; intros s k.
  - destruct s as [|c s]; simpl; split.
    + discriminate.
    + intros [s' [H _]]; inversion H.
    + intros H; apply andb_prop in H as [H1 H2]. exists s; split; [constructor|]; assumption.
    + intros [s' [H Hk]]; inversion H; subst. rewrite H2; exact Hk.
  - destruct s as [|c s]; simpl; split.
    + discriminate.
    + intros [s' [H _]]; inversion H.
    + intros H; apply andb_prop in H as [H1 H2]. exists s; split; [constructor|]; assumption.
    + intros [s' [H Hk]]; inversion H; subst. rewrite H4; exact Hk.
  - simpl. rewrite IH1. split.
    + intros [s1 [D1 H]]. apply IH2 in H as [s2 [D2 Hk]].
      exists s2; split; [econstructor; eassumption|exact Hk].
    + intros [s2 [D Hk]]. inversion D; subst.
      exists s1; split; [assumption|]. apply IH2. exists s2; split; assumption.
  - revert lo s. induction hi as [|h IHh]; intros lo s.
    + rewrite rmatch_rep_O. split.
      * intros H; apply andb_prop in H as [H1 H2]. apply Nat.eqb_eq in H1; subst.
        exists s; split; [constructor|exact H2].
      * intros [s' [D Hk]]. inversion D; subst. rewrite Hk. reflexivity.
    + rewrite rmatch_rep_S, orb_true_iff, IH. split.
      * intros [[s1 [D1 H]]|H].
        -- apply IHh in H as [s2 [D2 Hk]].
           exists s2; split; [econstructor; eassumption|exact Hk].
        -- apply andb_prop in H as [H1 H2]. apply Nat.eqb_eq in H1; subst.
           exists s; split; [constructor|exact H2].
      * intros [s' [D Hk]]. inversion D; subst.
        -- right. rewrite Hk. reflexivity.
        -- left. exists s1; split; [assumption|]. apply IHh. exists s'; split; assumption.
  - destruct s as [|c [|c' s]]; simpl; split.
    + intros H; exists []; split; [constructor|exact H].
    + intros [s' [D Hk]]; inversion D; subst; exact Hk.
    + intros H; apply andb_prop in H as [H1 H2]. apply Ascii.eqb_eq in H1; subst.
      exists [newline]; split; [constructor|exact H2].
    + intros [s' [D Hk]]; inversion D; subst. rewrite Hk. reflexivity.
    + discriminate.
    + intros [s' [D _]]; inversion D.
Qed.


Ltac app_norm := repeat (progress (rewrite <- ?app_assoc; simpl)).

Lemma derives_digit_inv s s' :
  derives RDigit s s' -> exists c, s = c :: s' /\ is_digit c = true.
Proof. intros D; inversion D; subst; eauto. Qed.

Lemma derives_char_inv c0 s s' :
  derives (RChar c0) s s' -> s = c0 :: s'.
Proof.
  intros D; inversion D as [| ? c ? Hc | | | | |]; subst.
  apply Ascii.eqb_eq in Hc; subst; reflexivity.
Qed.

Lemma derives_seq_inv r1 r2 s s' :
  derives (RSeq r1 r2) s s' -> exists s1, derives r1 s s1 /\ derives r2 s1 s'.
Proof. intros D; inversion D; subst; eauto. Qed.

Lemma derives_rep_O_inv r lo s s' :
  derives (RRep r lo 0) s s' -> lo = 0%nat /\ s' = s.
Proof. intros D; inversion D; subst; auto. Qed.

Lemma derives_rep_S_inv r lo h s s' :
  derives (RRep r lo (S h)) s s' ->
  (lo = 0%nat /\ s' = s) \/
  exists s1, derives r s s1 /\ derives (RRep r (pred lo) h) s1 s'.
Proof. intros D; inversion D; subst; eauto. Qed.

Lemma derives_end_inv s s' :
  derives REnd s s' -> s' = s /\ (s = [] \/ s = [newline]).
Proof. intros D; inversion D; subst; auto. Qed.

Lemma derives_digits hi : forall lo s s',
  derives (RRep RDigit lo hi) s s' <->
  exists g, (lo <= length g <= hi)%nat /\ forallb is_digit g = true /\ s = (g ++ s')%list.
Proof.
  induction hi as [|h IH]; intros lo s s'; split.
  - intros D. apply derives_rep_O_inv in D as [-> ->].
    exists []; simpl; repeat split; lia.
  - intros [g [Hl [_ ->]]]. destruct g; simpl in Hl; [|lia].
    replace lo with 0%nat by lia. constructor.
  - intros D. apply derives_rep_S_inv in D as [[-> ->]|[s1 [D1 D2]]].
    + exists []; simpl; repeat split; lia.
    + apply derives_digit_inv in D1 as [c [-> Hc]].
      apply IH in D2 as [g [Hl [Hg ->]]].
      exists (c :: g); simpl; rewrite Hc, Hg; repeat split; lia.
  - intros [g [Hl [Hg ->]]]. destruct g as [|c g].
    + simpl in Hl. replace lo with 0%nat by lia. constructor.
    + simpl in Hl, Hg |- *. apply andb_prop in Hg as [Hc Hg].
      econstructor; [constructor; exact Hc|].
      apply IH. exists g; repeat split; auto; lia.
Qed.

Lemma derives_group_dot s s' :
  derives group_dot s s' <-> exists g, digit_group g /\ s = (g ++ dot :: s')%list.
Proof.
  unfold group_dot, digit_group. split.
  - intros D. apply derives_seq_inv in D as [s1 [D1 D2]].
    apply derives_digits in D1 as [g [Hl [Hg ->]]].
    apply derives_char_inv in D2 as ->.
    exists g; repeat split; auto; lia.
  - intros [g [[Hl Hg] ->]]. econstructor.
    + apply derives_digits. exists g; repeat split; eauto; lia.
    + constructor. apply Ascii.eqb_refl.
Qed.

Lemma derives_three_groups s s' :
  derives (RRep group_dot 3 3) s s' <->
  exists g1 g2 g3, digit_group g1 /\ digit_group g2 /\ digit_group g3 /\
    s = (g1 ++ dot :: g2 ++ dot :: g3 ++ dot :: s')%list.
Proof.
  split.
  - intros D.
    apply derives_rep_S_inv in D as [[H _]|[s1 [D1 D]]]; [discriminate|].
    apply derives_rep_S_inv in D as [[H _]|[s2 [D2 D]]]; [discriminate|].
    apply derives_rep_S_inv in D as [[H _]|[s3 [D3 D]]]; [discriminate|].
    apply derives_rep_O_inv in D as [_ ->].
    apply derives_group_dot in D1 as [g1 [G1 ->]].
    apply derives_group_dot in D2 as [g2 [G2 ->]].
    apply derives_group_dot in D3 as [g3 [G3 ->]].
    exists g1, g2, g3; intuition.
  - intros [g1 [g2 [g3 [G1 [G2 [G3 ->]]]]]].
    econstructor; [apply derives_group_dot; eauto|]; simpl.
    econstructor; [apply derives_group_dot; eauto|]; simpl.
    econstructor; [apply derives_group_dot; eauto|]; simpl.
    constructor.
Qed.

Lemma derives_ip_pattern s s' :
  derives ip_pattern s s' <->
  exists g1 g2 g3 g4, digit_group g1 /\ digit_group g2 /\ digit_group g3 /\
    digit_group g4 /\ (s' = [] \/ s' = [newline]) /\
    s = (g1 ++ dot :: g2 ++ dot :: g3 ++ dot :: g4 ++ s')%list.
Proof.
  unfold ip_pattern. fold group_dot. split.
  - intros D. apply derives_seq_inv in D as [s1 [D1 D]].
    apply derives_seq_inv in D as [s2 [D2 D3]].
    apply derives_three_groups in D1 as [g1 [g2 [g3 [G1 [G2 [G3 ->]]]]]].
    apply derives_digits in D2 as [g4 [Hl [Hg ->]]].
    apply derives_end_inv in D3 as [-> Hs'].
    exists g1, g2, g3, g4.
    split; [exact G1|split; [exact G2|split; [exact G3|]]].
    split; [split; [lia|exact Hg]|split; [exact Hs'|]].
    app_norm. reflexivity.
  - intros [g1 [g2 [g3 [g4 [G1 [G2 [G3 [[Hl4 Hg4] [Hs' ->]]]]]]]]].
    econstructor.
    + apply derives_three_groups. exists g1, g2, g3.
      split; [exact G1|split; [exact G2|split; [exact G3|]]].
      instantiate (1 := (g4 ++ s')%list).
      app_norm. reflexivity.
    + econstructor.
      * apply derives_digits. exists g4. repeat split; eauto; lia.
      * destruct Hs' as [->| ->]; constructor.
Qed.

Lemma list_ascii_of_string_app s1 s2 :
  list_ascii_of_string (s1 ++ s2) = (list_ascii_of_string s1 ++ list_ascii_of_string s2)%list.
Proof. induction s1 as [|c s1 IH]; simpl; [reflexivity|rewrite IH; reflexivity]. Qed.

(** X1.  Over the characters U+0000 to U+00FF, where Python's [\d] matches
    only [0] to [9], [is_ip_address] accepts exactly the four groups of one
    to three digits separated by periods, and those same strings followed
    by one final newline (the value of each group is not checked). *)
Theorem is_ip_address_language (target : string) :
  is_ip_address target = true <->
  spec_dotted_quad target \/
  exists t0, spec_dotted_quad t0 /\ target = (t0 ++ String newline "")%string.
Proof.
  unfold is_ip_address, re_match. rewrite rmatch_derives. split.
  - intros [s' [D _]]. apply derives_ip_pattern in D
      as [g1 [g2 [g3 [g4 [G1 [G2 [G3 [G4 [Hs' Hs]]]]]]]]].
    destruct Hs' as [->| ->].
    + left. exists g1, g2, g3, g4.
      split; [exact G1|split; [exact G2|split; [exact G3|split; [exact G4|]]]].
      rewrite Hs. app_norm. rewrite app_nil_r. reflexivity.
    + right. exists (string_of_list_ascii (g1 ++ dot :: g2 ++ dot :: g3 ++ dot :: g4)).
      split.
      * exists g1, g2, g3, g4.
        split; [exact G1|split; [exact G2|split; [exact G3|split; [exact G4|]]]].
        rewrite list_ascii_of_string_of_list_ascii. reflexivity.
      * rewrite <- (string_of_list_ascii_of_string target), Hs.
        rewrite <- (string_of_list_ascii_of_string (_ ++ String newline "")).
        rewrite list_ascii_of_string_app, list_ascii_of_string_of_list_ascii. simpl.
        app_norm. reflexivity.
  - intros [[g1 [g2 [g3 [g4 [G1 [G2 [G3 [G4 Hs]]]]]]]]
           |[t0 [[g1 [g2 [g3 [g4 [G1 [G2 [G3 [G4 Hs]]]]]]]] ->]]].
    + exists []. split; [|reflexivity]. apply derives_ip_pattern.
      exists g1, g2, g3, g4.
      split; [exact G1|split; [exact G2|split; [exact G3|split; [exact G4|]]]].
      split; [left; reflexivity|].
      rewrite Hs. app_norm. rewrite app_nil_r. reflexivity.
    + exists [newline]. split; [|reflexivity]. apply derives_ip_pattern.
      exists g1, g2, g3, g4.
      split; [exact G1|split; [exact G2|split; [exact G3|split; [exact G4|]]]].
      split; [right; reflexivity|].
      rewrite list_ascii_of_string_app, Hs. simpl. app_norm. reflexivity.
Qed.

End RegexFacts.


(* ------------------------------------------------------------------ *)
(** ** Whole runs: calls, exceptions, the report and its file *)

Module RunFacts.
Import Classifier Json Pool Recon PoolFacts PortScan ReconFacts JsonFacts Views.
Local Open Scope list_scope.

(** ** Stage lemmas *)


(** ** Key uniqueness of dicts built by assignment *)

Lemma nodupb_NoDup l : nodupb l = true <-> NoDup l.
Proof.
  induction l as [|x l IH]; simpl; split; intros H.
  - constructor.
  - reflexivity.
  - apply andb_prop in H as [H1 H2]. constructor; [|apply IH; exact H2].
    intros Hin. apply negb_true_iff in H1.
    assert (existsb (String.eqb x) l = true) by
      (apply existsb_exists; exists x; split; [exact Hin|apply String.eqb_refl]).
    congruence.
  - inversion H as [|? ? Hx Hl]; subst. apply andb_true_intro; split; [|apply IH; exact Hl].
    apply negb_true_iff. destruct (existsb (String.eqb x) l) eqn:E; [|reflexivity].
    apply existsb_exists in E as [y [Hy Exy]]. apply String.eqb_eq in Exy; subst.
    contradiction.
Qed.

Lemma keys_unique_dict d :
  keys_unique (PDict d) = true <->
  NoDup (map (fun kv => key_str (fst kv)) d) /\ Forall (fun kv => keys_unique (snd kv) = true) d.
Proof.
  simpl. rewrite andb_true_iff, nodupb_NoDup, forallb_forall, Forall_forall. reflexivity.
Qed.

Lemma in_keys_dict_set {A} k (v : A) d x :
  In x (map fst (dict_set k v d)) -> In x (map fst d) \/ x = k.
Proof.
  induction d as [|[k' v'] d IH]; simpl; intros H.
  - destruct H as [H|[]]; right; auto.
  - destruct (key_eqb k k'); simpl in H; destruct H as [H|H]; auto.
    destruct (IH H); auto.
Qed.

Lemma in_dict_set {A} k (v : A) d kv :
  In kv (dict_set k v d) -> In kv d \/ kv = (k, v).
Proof.
  induction d as [|[k' v'] d IH]; simpl; intros H.
  - destruct H as [H|[]]; right; auto.
  - destruct (key_eqb k k') eqn:E; simpl in H; destruct H as [H|H]; auto.
    + apply key_eqb_spec in E; subst. right; auto.
    + destruct (IH H); auto.
Qed.


Lemma good_dict_nil : good_dict [].
Proof. split; [intros k []|reflexivity]. Qed.

Lemma good_dict_set s v d :
  good_dict d -> keys_unique v = true -> good_dict (dict_set (KStr s) v d).
Proof.
  intros [Hs Hu] Hv. apply keys_unique_dict in Hu as [Hnd Hall].
  split.
  - intros k Hk. apply in_keys_dict_set in Hk as [Hk| ->]; [apply Hs; exact Hk|eauto].
  - apply keys_unique_dict. split.
    + clear Hall. induction d as [|[k' v'] d IH]; simpl.
      * constructor; [intros []|constructor].
      * destruct (Hs k' (or_introl eq_refl)) as [s' ->].
        inversion Hnd as [|? ? Hn Hnd']; subst.
        destruct (String.eqb s s') eqn:E; simpl.
        -- constructor; assumption.
        -- constructor.
           ++ intros Hin. apply in_map_iff in Hin as [[k2 v2] [Hk2 Hin]].
              simpl in Hk2. pose proof (in_map fst _ _ Hin) as Hin'. simpl in Hin'.
              apply in_keys_dict_set in Hin' as [Hin'| ->].
              ** apply Hn. apply in_map_iff.
                 apply in_map_iff in Hin' as [[k3 v3] [Hk3 Hin3]]. simpl in Hk3; subst k3.
                 exists (k2, v3). split; [exact Hk2|exact Hin3].
              ** simpl in Hk2. apply String.eqb_neq in E. congruence.
           ++ apply IH; [|exact Hnd'].
              intros k Hk. apply Hs. right. exact Hk.
    + apply Forall_forall. intros kv Hkv. apply in_dict_set in Hkv as [Hkv| ->].
      * rewrite Forall_forall in Hall. apply Hall, Hkv.
      * exact Hv.
Qed.

Lemma dns_loop_good e t rts acc st :
  good_dict acc ->
  exists d, dns_loop e t rts acc st
            = (Ok d, mkState (results st) (trace st ++ map (CDns t) rts)) /\ good_dict d.
Proof.
  revert acc st; induction rts as [|r rts IH]; intros acc st Hacc.
  - exists acc. simpl. rewrite app_nil_r. destruct st; split; auto.
  - simpl. unfold bind at 1, emit at 1.
    set (st1 := mkState (results st) (trace st ++ [CDns t r])).
    destruct (dns_resolve e t r) as [rs|].
    + assert (G : good_dict (dict_set (KStr r) (PList (map PStr rs)) acc)).
      { apply good_dict_set; [exact Hacc|]. simpl.
        apply forallb_forall. intros x Hx. apply in_map_iff in Hx as [y [<- _]]. reflexivity. }
      destruct (IH _ st1 G) as [d [Hd Gd]]. exists d. split; [|exact Gd].
      rewrite Hd. simpl. rewrite <- app_assoc. reflexivity.
    + destruct (IH _ st1 Hacc) as [d [Hd Gd]]. exists d. split; [|exact Gd].
      rewrite Hd. simpl. rewrite <- app_assoc. reflexivity.
Qed.

(** ** Stage lemmas *)

Lemma stage_dns e t st :
  exists v, get_dns_records e t st
            = (Ok tt, mkState (dict_set (KStr "dns_records") v (results st))
                              (trace st ++ dns_calls t)) /\
            keys_unique v = true.
Proof.
  unfold get_dns_records, dns_calls. destruct (is_ip_address t).
  - exists (PStr dns_skipped). rewrite app_nil_r. destruct st. split; reflexivity.
  - destruct (dns_loop_good e t record_types [] st good_dict_nil) as [d [Hd [_ Gd]]].
    exists (PDict d). split; [|exact Gd]. unfold bind; rewrite Hd. reflexivity.
Qed.


Lemma stage_whois e t st :
  exists v, get_whois e t st
            = (Ok tt, mkState (dict_set (KStr "whois") v (results st)) (trace st ++ [CWhois t])) /\
            (well_formed e -> keys_unique v = true).
Proof.
  unfold get_whois, bind, emit, set_result; simpl.
  destruct (whois_query e t) as [w|] eqn:Ew; eexists; (split; [reflexivity|]); intros [Hw _].
  - destruct (Hw t w Ew) as [H1 [H2 H3]]. simpl. rewrite H1, H2.
    destruct (truthy (w_emails w)); [rewrite H3|]; reflexivity.
  - reflexivity.
Qed.


Lemma gather_raised_iff net ps :
  gather (map (check_port net) ps) = ExRaised <-> exists p, In p ps /\ net p = None.
Proof.
  induction ps as [|p ps IH]; simpl.
  - split; [discriminate|intros [p [[] _]]].
  - unfold check_port at 1. destruct (net p) as [c|] eqn:E.
    + destruct (gather (map (check_port net) ps)) as [rs|] eqn:G.
      * split; [discriminate|]. intros [q [[<-|Hq] Hn]]; [congruence|].
        assert (H : ExValues rs = ExRaised) by (apply IH; eauto). discriminate.
      * split; [intros _|reflexivity]. destruct (proj1 IH eq_refl) as [q [Hq Hn]].
        exists q; auto.
    + split; [intros _; exists p; auto|reflexivity].
Qed.

Lemma open_ports_nodup {B} (g : Z -> B) serv rs :
  NoDup (map g (map fst rs)) -> NoDup (map g (map fst (open_ports serv rs))).
Proof.
  induction rs as [|[p [|]] rs IH]; simpl; intros H; auto.
  - inversion H as [|? ? Hn Hnd]; subst. constructor; [|auto].
    intros Hin. apply Hn. apply in_map_iff in Hin as [q [Hq Hin]].
    apply in_map_iff. exists q. split; [exact Hq|]. eapply open_ports_sub; exact Hin.
  - inversion H; auto.
Qed.

Lemma common_ports_keys_nodup : NoDup (map str_of_Z common_ports).
Proof. apply nodupb_NoDup. vm_compute. reflexivity. Qed.

Lemma port_dict_unique serv rs :
  map fst rs = common_ports ->
  keys_unique (PDict (map (fun ps => (KInt (fst ps), PStr (snd ps))) (open_ports serv rs)))
  = true.
Proof.
  intros Hrs. apply keys_unique_dict. split.
  - rewrite map_map. simpl.
    replace (map (fun x => str_of_Z (fst x)) (open_ports serv rs))
      with (map str_of_Z (map fst (open_ports serv rs))) by (rewrite map_map; reflexivity).
    apply open_ports_nodup. rewrite Hrs. apply common_ports_keys_nodup.
  - apply Forall_forall. intros kv Hkv. apply in_map_iff in Hkv as [x [<- _]]. reflexivity.
Qed.

Lemma stage_scan e ip st :
  (~ scan_raises e ip /\
   exists v, scan_common_ports e ip st
             = (Ok tt, mkState (dict_set (KStr "port_scan") v (results st))
                               (trace st ++ scan_calls ip)) /\ keys_unique v = true) \/
  (scan_raises e ip /\
   exists l, scan_common_ports e ip st = (Exc ProbeError, mkState (results st) (trace st ++ l)) /\
             forallb (fun c => negb (file_call c)) l = true).
Proof.
  unfold scan_common_ports, scan_calls. destruct ip as [a|].
  - destruct (String.eqb a "") eqn:Ea.
    + left. split.
      * intros [a' [p [Ha [Hne _]]]]. inversion Ha; subst. apply String.eqb_eq in Ea. contradiction.
      * eexists; split; [rewrite app_nil_r; destruct st; reflexivity|reflexivity].
    + destruct (executor_map (check_port (connect_ex e a)) common_ports) as [rs|] eqn:Ex;
        rewrite (bind_ok _ _ _ _ _ (emit_connects_eff a _ st)).
      * left. split.
        -- intros [a' [p [Ha [_ [Hp Hn]]]]]. inversion Ha; subst.
           assert (H : executor_map (check_port (connect_ex e a')) common_ports = ExRaised)
             by (apply gather_raised_iff; eauto). congruence.
        -- eexists; split; [reflexivity|]. apply port_dict_unique.
           eapply gather_values_fst; exact Ex.
      * right. split.
        -- apply gather_raised_iff in Ex as [p [Hp Hn]].
           exists a, p. repeat split; auto. apply String.eqb_neq; exact Ea.
        -- eexists; split; [reflexivity|].
           apply forallb_forall. intros c Hc. apply in_map_iff in Hc as [q [<- _]].
           reflexivity.
  - left. split.
    + intros [a [p [Ha _]]]; discriminate.
    + eexists; split; [rewrite app_nil_r; destruct st; reflexivity|reflexivity].
Qed.

Lemma stage_http e t st :
  get_http_headers e t st = (Ok tt, mkState (http_res e t (results st)) (trace st ++ http_calls e t)).
Proof.
  unfold http_res, http_calls.
  destruct (http_get e ("https://" ++ t)%string 5) as [h|] eqn:E1;
  [|destruct (http_get e ("http://" ++ t)%string 5) as [h|] eqn:E2];
  unfold get_http_headers, http_loop, bind, emit, set_result, ret; simpl in *;
  rewrite ?E1, ?E2; simpl; rewrite <- ?app_assoc; destruct st; reflexivity.
Qed.

Lemma header_dict_unique h : NoDup (map fst h) -> keys_unique (header_dict h) = true.
Proof.
  intros H. unfold header_dict. apply keys_unique_dict. split.
  - rewrite map_map. exact H.
  - apply Forall_forall. intros kv Hkv. apply in_map_iff in Hkv as [x [<- _]]. reflexivity.
Qed.

Lemma http_res_good e t r : well_formed e -> good_dict r -> good_dict (http_res e t r).
Proof.
  intros [_ Hh] G. unfold http_res.
  destruct (http_get e ("https://" ++ t)%string 5) as [h|] eqn:E1;
  [|destruct (http_get e ("http://" ++ t)%string 5) as [h|] eqn:E2];
  try exact G; apply good_dict_set; auto; apply header_dict_unique; eapply Hh; eauto.
Qed.

Lemma stage_save e t st :
  save_results e t st
  = if can_write e (t ++ "_recon.json")%string
    then (Ok tt, mkState (results st)
                   (trace st ++ [CWrite (t ++ "_recon.json")%string
                                        (to_json (report t (results st)))]))
    else if open_fails e (t ++ "_recon.json")%string then (Exc WriteError, st)
    else (Exc WriteError, mkState (results st)
                            (trace st ++ [CTruncate (t ++ "_recon.json")%string])).
Proof. reflexivity. Qed.

Lemma get_ip_cases e t st :
  (get_ip e t st = (Ok (resolved e t),
                    mkState (if is_ip_address t then results st
                             else dict_set (KStr "ip_address")
                                    (PStr (match gethostbyname e t with
                                           | inl ip => ip | inr _ => not_found end))
                                    (results st))
                            (trace st ++ resolve_calls t)) /\
   (is_ip_address t = true \/ forall x, gethostbyname e t = inr x -> x = GaiError)) \/
  (exists x, get_ip e t st = (Exc x, mkState (results st) (trace st ++ [CResolve t])) /\
             is_ip_address t = false /\ gethostbyname e t = inr x /\ x <> GaiError).
Proof.
  rewrite stage_ip. unfold resolved, resolve_calls.
  destruct (is_ip_address t) eqn:Ei.
  - left. rewrite app_nil_r. destruct st. split; auto.
  - destruct (gethostbyname e t) as [ip|[| | |]] eqn:Eg.
    + left. split; [reflexivity|right; intros x Hx; discriminate].
    + left. split; [reflexivity|right; intros x Hx; inversion Hx; reflexivity].
    + right. exists UnicodeError. repeat split; auto; discriminate.
    + right. exists ProbeError. repeat split; auto; discriminate.
    + right. exists WriteError. repeat split; auto; discriminate.
Qed.



Lemma run_ok_state e t :
  fst (run_recon e t) = Ok tt ->
  exists v2 v3 v4,
    let r := http_res e t (dict_set (KStr "port_scan") v4
                             (dict_set (KStr "dns_records") v3
                                (dict_set (KStr "whois") v2 (ip_results e t)))) in
    final_results e t = r /\
    trace (snd (run_recon e t))
    = resolve_calls t ++ [CWhois t] ++ dns_calls t ++ scan_calls (resolved e t)
      ++ http_calls e t ++ [CWrite (t ++ "_recon.json")%string (to_json (report t r))] /\
    (well_formed e -> keys_unique v2 = true) /\ keys_unique v3 = true /\
    keys_unique v4 = true.
Proof.
  intros Hok. unfold final_results. unfold run_recon in *.
  destruct (get_ip_cases e t (mkState [] [])) as [[Hg _]|[x [Hg _]]];
    [|rewrite (bind_exc _ _ _ _ _ Hg) in Hok; discriminate].
  rewrite (bind_ok _ _ _ _ _ Hg) in *; cbv beta in *.
  match type of Hok with context [bind (get_whois e t) _ ?st] =>
    destruct (stage_whois e t st) as [v2 [Hw Hv2]] end.
  rewrite (bind_ok _ _ _ _ _ Hw) in *; cbv beta in *.
  match type of Hok with context [bind (get_dns_records e t) _ ?st] =>
    destruct (stage_dns e t st) as [v3 [Hd Hv3]] end.
  rewrite (bind_ok _ _ _ _ _ Hd) in *; cbv beta in *.
  match type of Hok with context [bind (scan_common_ports e _) _ ?st] =>
    destruct (stage_scan e (resolved e t) st)
      as [[_ [v4 [Hs Hv4]]]|[_ [l [Hs _]]]] end;
    [|rewrite (bind_exc _ _ _ _ _ Hs) in Hok; discriminate].
  rewrite (bind_ok _ _ _ _ _ Hs) in *; cbv beta in *.
  rewrite (bind_ok _ _ _ _ _ (stage_http e t _)) in *.
  rewrite stage_save in *. simpl in *.
  destruct (can_write e (t ++ "_recon.json")%string);
    [|destruct (open_fails e (t ++ "_recon.json")%string); discriminate].
  exists v2, v3, v4. simpl. split; [|split; [|split; [exact Hv2|split; assumption]]].
  - unfold ip_results. destruct (is_ip_address t); reflexivity.
  - unfold ip_results. rewrite <- !app_assoc. simpl.
    destruct (is_ip_address t); reflexivity.
Qed.


Lemma keys_dict_set {A} k (v : A) d :
  map fst (dict_set k v d)
  = if existsb (key_eqb k) (map fst d) then map fst d else map fst d ++ [k].
Proof.
  induction d as [|[k' v'] d IH]; simpl; [reflexivity|].
  destruct (key_eqb k k') eqn:E; simpl; [reflexivity|].
  rewrite IH. destruct (existsb (key_eqb k) (map fst d)); reflexivity.
Qed.

Lemma keys_http_res e t r :
  ~ In (KStr "https_headers") (map fst r) -> ~ In (KStr "http_headers") (map fst r) ->
  map fst (http_res e t r) = map fst r ++ http_keys e t.
Proof.
  intros H1 H2. unfold http_res, http_keys.
  destruct (http_get e ("https://" ++ t)%string 5);
    [|destruct (http_get e ("http://" ++ t)%string 5)];
    rewrite ?app_nil_r; try reflexivity;
    rewrite dict_set_fresh by assumption; rewrite map_app; reflexivity.
Qed.

(** Running the whole tool: what a run calls, the exceptions that can
    end it, and the report it saves. *)

(** X6.  A completed run makes its outside calls in this order: the
    resolution (hostnames only), WHOIS, the seven DNS queries (hostnames
    only), one connection per port (when an address was obtained), https
    then http only if https failed, and finally one write of
    [<target>_recon.json] holding the final report. *)
Theorem run_recon_calls (e : env) (t : string) :
  fst (run_recon e t) = Ok tt ->
  trace (snd (run_recon e t))
  = resolve_calls t ++ [CWhois t] ++ dns_calls t ++ scan_calls (resolved e t)
    ++ http_calls e t
    ++ [CWrite (t ++ "_recon.json")%string (to_json (report t (final_results e t)))].
Proof.
  intros Hok. destruct (run_ok_state e t Hok) as [v2 [v3 [v4 [Hr [Ht _]]]]].
  rewrite Ht, Hr. reflexivity.
Qed.

(** X7.  The results of a completed run hold exactly these keys, in this
    order: [ip_address] (hostnames only), [whois], [dns_records],
    [port_scan], then [https_headers] or [http_headers] when a protocol
    answered. *)
Theorem report_key_order (e : env) (t : string) :
  fst (run_recon e t) = Ok tt ->
  map fst (final_results e t)
  = (if is_ip_address t then [] else [KStr "ip_address"])
    ++ [KStr "whois"; KStr "dns_records"; KStr "port_scan"] ++ http_keys e t.
Proof.
  intros Hok. destruct (run_ok_state e t Hok) as [v2 [v3 [v4 [Hr _]]]].
  rewrite Hr. unfold ip_results.
  destruct (is_ip_address t);
    rewrite keys_http_res; rewrite ?keys_dict_set; simpl; try reflexivity;
    intros H; repeat (destruct H as [H|H]; [discriminate|]); exact H.
Qed.



Lemma file_free_map {A} (f : A -> call) l :
  (forall a, file_call (f a) = false) -> forallb (fun c => negb (file_call c)) (map f l) = true.
Proof.
  intros Hf. apply forallb_forall. intros c Hc. apply in_map_iff in Hc as [a [<- _]].
  rewrite Hf. reflexivity.
Qed.

Lemma file_free_resolve t : forallb (fun c => negb (file_call c)) (resolve_calls t) = true.
Proof. unfold resolve_calls. destruct (is_ip_address t); reflexivity. Qed.

Lemma file_free_dns t : forallb (fun c => negb (file_call c)) (dns_calls t) = true.
Proof.
  unfold dns_calls. destruct (is_ip_address t); [reflexivity|].
  apply file_free_map. reflexivity.
Qed.

Lemma file_free_scan ip : forallb (fun c => negb (file_call c)) (scan_calls ip) = true.
Proof.
  unfold scan_calls. destruct ip as [a|]; [destruct (String.eqb a "")|]; reflexivity.
Qed.

Lemma file_free_http e t : forallb (fun c => negb (file_call c)) (http_calls e t) = true.
Proof. unfold http_calls. destruct (http_get e _ 5); reflexivity. Qed.

Ltac file_free :=
  repeat rewrite forallb_app; repeat (apply andb_true_intro; split);
  first [ reflexivity | assumption | apply file_free_resolve | apply file_free_dns
        | apply file_free_scan | apply file_free_http ].

Lemma file_calls_none P :
  forallb (fun c => negb (file_call c)) P = true ->
  ~ writes_file P /\ (forall fn, ~ In (CTruncate fn) P).
Proof.
  rewrite forallb_forall. intros H. split.
  - intros [fn [doc Hin]]. specialize (H _ Hin). discriminate.
  - intros fn Hin. specialize (H _ Hin). discriminate.
Qed.

Lemma file_calls_trunc P fn :
  forallb (fun c => negb (file_call c)) P = true ->
  ~ writes_file (P ++ [CTruncate fn]) /\
  (forall fn', In (CTruncate fn') (P ++ [CTruncate fn]) <-> fn' = fn).
Proof.
  intros H. destruct (file_calls_none P H) as [W T]. split.
  - intros [f [doc Hin]]. apply in_app_or in Hin as [Hin|[Hin|[]]];
      [apply W; exists f, doc; exact Hin|discriminate].
  - intros fn'. split.
    + intros Hin. apply in_app_or in Hin as [Hin|[Hin|[]]];
        [contradiction (T fn' Hin)|inversion Hin; reflexivity].
    + intros ->. apply in_or_app. right. left. reflexivity.
Qed.

(** X8.  A run that raises never writes the complete report.  The exception
    is one of three: a non-[gaierror] exception of the resolution of a
    hostname, or a [connect_ex] exception during the scan, and then no file
    is touched; or the failure to save the results, and then
    [<target>_recon.json] is left created or truncated, without the
    complete report, exactly when [open] succeeded and the dump failed. *)
Theorem run_recon_exceptions (e : env) (t : string) (x : pyexc) :
  fst (run_recon e t) = Exc x ->
  ~ writes_file (trace (snd (run_recon e t))) /\
  ((is_ip_address t = false /\ gethostbyname e t = inr x /\ x <> GaiError /\
    ~ truncates (trace (snd (run_recon e t)))) \/
   (x = ProbeError /\ scan_raises e (resolved e t) /\
    ~ truncates (trace (snd (run_recon e t)))) \/
   (x = WriteError /\ can_write e (t ++ "_recon.json")%string = false /\
    (forall fn, In (CTruncate fn) (trace (snd (run_recon e t))) <->
                fn = (t ++ "_recon.json")%string /\
                open_fails e (t ++ "_recon.json")%string = false))).
Proof.
  intros Hx. unfold run_recon in *.
  destruct (get_ip_cases e t (mkState [] [])) as [[Hg _]|[y [Hg [Hi [Hy Hne]]]]].
  2:{ rewrite (bind_exc _ _ _ _ _ Hg) in *. simpl in Hx. inversion Hx; subst.
      simpl. destruct (file_calls_none [CResolve t] eq_refl) as [W T].
      split; [exact W|left]. split; [exact Hi|split; [exact Hy|split; [exact Hne|]]].
      intros [fn Hin]. exact (T fn Hin). }
  rewrite (bind_ok _ _ _ _ _ Hg) in *; cbv beta in *.
  match goal with |- context [bind (get_whois e t) _ ?st] =>
    destruct (stage_whois e t st) as [v2 [Hw _]] end.
  rewrite (bind_ok _ _ _ _ _ Hw) in *; cbv beta in *.
  match goal with |- context [bind (get_dns_records e t) _ ?st] =>
    destruct (stage_dns e t st) as [v3 [Hd _]] end.
  rewrite (bind_ok _ _ _ _ _ Hd) in *; cbv beta in *.
  match goal with |- context [bind (scan_common_ports e _) _ ?st] =>
    destruct (stage_scan e (resolved e t) st) as [[_ [v4 [Hs _]]]|[Hr [l [Hs Hl]]]] end.
  - rewrite (bind_ok _ _ _ _ _ Hs) in *; cbv beta in *.
    rewrite (bind_ok _ _ _ _ _ (stage_http e t _)) in *.
    rewrite stage_save in *. simpl in *.
    destruct (can_write e (t ++ "_recon.json")%string) eqn:Ew; [discriminate|].
    destruct (open_fails e (t ++ "_recon.json")%string) eqn:Eo;
      simpl in Hx; inversion Hx; subst; simpl.
    + match goal with |- ~ writes_file ?T /\ _ =>
        destruct (file_calls_none T) as [W Tr]; [file_free|] end.
      split; [exact W|right; right]. split; [reflexivity|split; [reflexivity|]].
      intros fn. split; [intros Hin; contradiction (Tr fn Hin)|intros [_ H]; discriminate].
    + match goal with |- ~ writes_file (?P ++ [CTruncate ?f]) /\ _ =>
        destruct (file_calls_trunc P f) as [W Tr]; [file_free|] end.
      split; [exact W|right; right]. split; [reflexivity|split; [reflexivity|]].
      intros fn. rewrite Tr. split; [intros ->; auto|intros [-> _]; reflexivity].
  - rewrite (bind_exc _ _ _ _ _ Hs) in *. simpl in Hx. inversion Hx; subst. simpl.
    match goal with |- ~ writes_file ?T /\ _ =>
      destruct (file_calls_none T) as [W Tr]; [file_free|] end.
    split; [exact W|right; left]. split; [reflexivity|split; [exact Hr|]].
    intros [fn Hin]. exact (Tr fn Hin).
Qed.


(** X9.  A run completes exactly when the resolution raises nothing but
    [gaierror] (or is skipped), no connection attempt raises, and the
    results file can be written. *)
Theorem run_recon_completes (e : env) (t : string) :
  fst (run_recon e t) = Ok tt <->
  (is_ip_address t = true \/ (forall x, gethostbyname e t = inr x -> x = GaiError)) /\
  ~ scan_raises e (resolved e t) /\ can_write e (t ++ "_recon.json")%string = true.
Proof.
  unfold run_recon.
  destruct (get_ip_cases e t (mkState [] [])) as [[Hg H1]|[y [Hg [Hi [Hy Hne]]]]].
  2:{ rewrite (bind_exc _ _ _ _ _ Hg). simpl. split; [discriminate|].
      intros [[H|H] _]; [congruence|]. exfalso; exact (Hne (H y Hy)). }
  rewrite (bind_ok _ _ _ _ _ Hg); cbv beta.
  match goal with |- context [bind (get_whois e t) _ ?st] =>
    destruct (stage_whois e t st) as [v2 [Hw _]] end.
  rewrite (bind_ok _ _ _ _ _ Hw); cbv beta.
  match goal with |- context [bind (get_dns_records e t) _ ?st] =>
    destruct (stage_dns e t st) as [v3 [Hd _]] end.
  rewrite (bind_ok _ _ _ _ _ Hd); cbv beta.
  match goal with |- context [bind (scan_common_ports e _) _ ?st] =>
    destruct (stage_scan e (resolved e t) st) as [[Hnr [v4 [Hs _]]]|[Hr [l [Hs _]]]] end.
  - rewrite (bind_ok _ _ _ _ _ Hs); cbv beta.
    rewrite (bind_ok _ _ _ _ _ (stage_http e t _)).
    rewrite stage_save. simpl.
    destruct (can_write e (t ++ "_recon.json")%string).
    + split; [intros _; auto|reflexivity].
    + split; [destruct (open_fails e (t ++ "_recon.json")%string); discriminate|].
      intros [_ [_ H]]; discriminate.
  - rewrite (bind_exc _ _ _ _ _ Hs). simpl. split; [discriminate|].
    intros [_ [H _]]; contradiction.
Qed.

Lemma load_dump (v : pyval) :
  keys_unique v = true -> of_json (to_json v) = keys_to_str v.
Proof.
  induction v as [| s | z | l IH | d IH] using pyval_ind'; intros H; try reflexivity.
  - simpl. f_equal. rewrite map_map. simpl in H.
    induction IH as [|x l Hx _ IHl]; [reflexivity|].
    simpl in H. apply andb_prop in H as [H1 H2].
    simpl. rewrite (Hx H1), (IHl H2). reflexivity.
  - simpl in H. apply andb_prop in H as [Hnd Hall]. simpl.
    rewrite fold_dict_set.
    + simpl. f_equal. rewrite map_map. simpl.
      clear Hnd. induction IH as [|[k x] d Hx _ IHd]; [reflexivity|].
      simpl in Hall, Hx. apply andb_prop in Hall as [H1 H2]. simpl.
      rewrite (Hx H1), (IHd H2). reflexivity.
    + rewrite map_map. exact Hnd.
    + intros s _ [].
Qed.

Lemma keys_unique_report t r : keys_unique (report t r) = keys_unique (PDict r).
Proof.
  unfold report. remember (PDict r) as v eqn:Ev.
  simpl. rewrite andb_true_r. reflexivity.
Qed.

(** X10.  When the libraries answer well-formed values, the file a completed
    run writes, read back by [json.load], is the report with every dict key
    in its JSON string form (port numbers as decimal strings). *)
Theorem saved_report_reloads (e : env) (t : string) :
  well_formed e -> fst (run_recon e t) = Ok tt ->
  exists doc,
    In (CWrite (t ++ "_recon.json")%string doc) (trace (snd (run_recon e t))) /\
    of_json doc = keys_to_str (report t (final_results e t)).
Proof.
  intros Hwf Hok.
  destruct (run_ok_state e t Hok) as [v2 [v3 [v4 [Hr [Ht [Hv2 [Hv3 Hv4]]]]]]].
  exists (to_json (report t (final_results e t))). split.
  - rewrite Ht, <- Hr. apply in_or_app. right. apply in_or_app. right.
    apply in_or_app. right. apply in_or_app. right. apply in_or_app. right.
    left. reflexivity.
  - apply load_dump.
    assert (G : good_dict (final_results e t)).
    { rewrite Hr. apply http_res_good; [exact Hwf|].
      apply good_dict_set; [|exact Hv4].
      apply good_dict_set; [|exact Hv3].
      apply good_dict_set; [|exact (Hv2 Hwf)].
      unfold ip_results. destruct (is_ip_address t);
        [apply good_dict_nil|apply good_dict_set; [apply good_dict_nil|reflexivity]]. }
    destruct G as [_ G]. rewrite keys_unique_report. exact G.
Qed.


Lemma in_open_ports serv (f : Z -> bool) ps p s :
  In (p, s) (open_ports serv (map (fun q => (q, f q)) ps)) <->
  In p ps /\ f p = true /\ s = match serv p with Some s' => s' | None => "unknown" end.
Proof.
  induction ps as [|q ps IH]; simpl; [tauto|].
  destruct (f q) eqn:Eq; simpl; rewrite IH; split.
  - intros [H|H]; [inversion H; subst; auto|tauto].
  - intros [[<-|Hp] [Hf Hs]]; [left; subst; reflexivity|right; auto].
  - intros H; tauto.
  - intros [[<-|Hp] [Hf Hs]]; [congruence|auto].
Qed.

(** X4.  When the scanned address is non-empty and no attempt raises,
    [scan_common_ports] connects to each of the 20 ports once and records
    under [port_scan] exactly the ports whose [connect_ex] returned 0, in
    ascending order, each with [getservbyport] or ["unknown"]. *)
Theorem port_scan_open_services (e : env) (a : string) (st : rstate) :
  a <> "" -> (forall p, In p common_ports -> connect_ex e a p <> None) ->
  exists ops,
    scan_common_ports e (Some a) st
    = (Ok tt, mkState (dict_set (KStr "port_scan")
                         (PDict (map (fun ps => (KInt (fst ps), PStr (snd ps))) ops))
                         (results st))
                      (trace st ++ map (CConnect a) common_ports)) /\
    StronglySorted Z.lt (map fst ops) /\
    (forall p s, In (p, s) ops <->
                 In p common_ports /\ connect_ex e a p = Some 0%Z /\ s = service e p).
Proof.
  intros Ha Hn. unfold scan_common_ports.
  destruct (String.eqb a "") eqn:Ea; [apply String.eqb_eq in Ea; contradiction|].
  unfold executor_map. rewrite gather_no_raise by exact Hn.
  rewrite (bind_ok _ _ _ _ _ (emit_connects_eff a common_ports st)).
  eexists. split; [reflexivity|split].
  - apply open_ports_sorted. rewrite map_map. simpl.
    replace (map (fun x => x) common_ports) with common_ports by (symmetry; apply map_id).
    apply common_ports_sorted.
  - intros p s. rewrite in_open_ports. unfold service.
    split; intros [Hp [Hf Hs]]; split; auto; split; auto.
    + destruct (connect_ex e a p) as [c|]; [|discriminate].
      apply Z.eqb_eq in Hf; subst; reflexivity.
    + rewrite Hf. reflexivity.
Qed.

(** X5.  When one attempt of the scan raises, [scan_common_ports] raises
    and records nothing: the results are those it was called with. *)
Theorem port_scan_failure_keeps_results (e : env) (a : string) (p : Z) (st : rstate) :
  a <> "" -> In p common_ports -> connect_ex e a p = None ->
  fst (scan_common_ports e (Some a) st) = Exc ProbeError /\
  results (snd (scan_common_ports e (Some a) st)) = results st.
Proof.
  intros Ha Hp Hn.
  destruct (stage_scan e (Some a) st) as [[Hnr _]|[_ [l [Hs _]]]].
  - exfalso. apply Hnr. exists a, p. auto.
  - rewrite Hs. split; reflexivity.
Qed.

(** The state of a run that gets past [get_ip], when [scan_common_ports]
    starts. *)
Lemma run_until_scan e t :
  (is_ip_address t = true \/ (forall x, gethostbyname e t = inr x -> x = GaiError)) ->
  exists v2 v3,
    run_recon e t
    = (scan_common_ports e (resolved e t);;; get_http_headers e t;;; save_results e t)
        (mkState (dict_set (KStr "dns_records") v3 (dict_set (KStr "whois") v2 (ip_results e t)))
                 (resolve_calls t ++ [CWhois t] ++ dns_calls t)).
Proof.
  intros H1. unfold run_recon.
  destruct (get_ip_cases e t (mkState [] [])) as [[Hg _]|[y [Hg [Hi [Hy Hne]]]]].
  2:{ exfalso. destruct H1 as [H1|H1]; [congruence|exact (Hne (H1 y Hy))]. }
  rewrite (bind_ok _ _ _ _ _ Hg); cbv beta.
  match goal with |- context [bind (get_whois e t) _ ?st] =>
    destruct (stage_whois e t st) as [v2 [Hw _]] end.
  rewrite (bind_ok _ _ _ _ _ Hw); cbv beta.
  match goal with |- context [bind (get_dns_records e t) _ ?st] =>
    destruct (stage_dns e t st) as [v3 [Hd _]] end.
  rewrite (bind_ok _ _ _ _ _ Hd); cbv beta.
  exists v2, v3. unfold ip_results. simpl. rewrite <- !app_assoc. reflexivity.
Qed.

(** C4 (the code departs from the claim).  An attempt that raises instead
    of returning an error code (such as the [socket.gaierror] of
    [connect_ex] for an address that [is_ip_address] accepts but the socket
    layer cannot parse) yields no closed [PortResult]: [executor.map]
    re-raises, [scan_common_ports] raises and the run ends with that
    exception, with no [port_scan] entry at all and no report file. *)
Theorem raising_attempt_aborts_run (e : env) (t a : string) (p : Z) :
  resolved e t = Some a -> a <> "" -> In p common_ports -> connect_ex e a p = None ->
  fst (run_recon e t) = Exc ProbeError /\
  dict_get (KStr "port_scan") (final_results e t) = None /\
  ~ writes_file (trace (snd (run_recon e t))) /\
  ~ truncates (trace (snd (run_recon e t))).
Proof.
  intros Hr Ha Hp Hn.
  assert (H1 : is_ip_address t = true \/ (forall x, gethostbyname e t = inr x -> x = GaiError)).
  { unfold resolved in Hr. destruct (is_ip_address t); [left; reflexivity|right].
    intros x Hx. rewrite Hx in Hr. discriminate. }
  destruct (run_until_scan e t H1) as [v2 [v3 Hrun]].
  unfold final_results. rewrite Hrun.
  match goal with |- context [bind (scan_common_ports e _) _ ?st] =>
    destruct (stage_scan e (resolved e t) st) as [[Hnr _]|[_ [l [Hs Hl]]]] end.
  - exfalso. apply Hnr. exists a, p. auto.
  - rewrite (bind_exc _ _ _ _ _ Hs). simpl.
    match goal with |- _ /\ _ /\ ~ writes_file ?T /\ _ =>
      destruct (file_calls_none T) as [W Tr]; [file_free|] end.
    split; [reflexivity|split; [|split; [exact W|intros [fn Hin]; exact (Tr fn Hin)]]].
    rewrite !dict_get_set. simpl. unfold ip_results.
    destruct (is_ip_address t); [reflexivity|]. rewrite dict_get_set. reflexivity.
Qed.

End RunFacts.

(* ------------------------------------------------------------------ *)
(** ** Concrete runs: witnesses and counterexamples *)

Module Runs.
Import Classifier Json Pool Recon PoolFacts PortScan ReconFacts Collectors
       JsonFacts Scenarios Views RunFacts.

(** C1: two schedules with different completion orders (ten workers
    finishing each batch in reverse order; a single worker) both terminate
    and collect the same results. *)
Lemma port_scan_order_witness :
  terminal (pool_after demo_net sched_reverse) /\
  terminal (pool_after demo_net sched_serial) /\
  collect (pool_after demo_net sched_reverse) = collect (pool_after demo_net sched_serial).
Proof.
  assert (RA : reachable demo_net (init common_ports) (pool_after demo_net sched_reverse)).
  { apply (run_actions_reachable _ sched_reverse). vm_compute. reflexivity. }
  assert (RB : reachable demo_net (init common_ports) (pool_after demo_net sched_serial)).
  { apply (run_actions_reachable _ sched_serial). vm_compute. reflexivity. }
  assert (TA : terminal (pool_after demo_net sched_reverse)).
  { vm_compute. split; [reflexivity|split; reflexivity]. }
  assert (TB : terminal (pool_after demo_net sched_serial)).
  { vm_compute. split; [reflexivity|split; reflexivity]. }
  destruct (port_scan_order_deterministic demo_net demo_serv _ _ RA TA RB TB) as [_ [H _]].
  exact (conj TA (conj TB H)).
Defined.

(** C2: the bound is reached: ten attempts in flight at once. *)
Lemma in_flight_bounded_witness :
  in_flight (pool_after demo_net sched_busy) = max_workers /\
  (in_flight (pool_after demo_net sched_busy) <= max_workers)%nat.
Proof.
  split; [vm_compute; reflexivity|].
  apply (in_flight_bounded common_ports demo_net).
  apply (run_actions_reachable _ sched_busy). vm_compute. reflexivity.
Defined.

(** C3: ["example.test"] does not resolve. *)
Lemma unresolved_skips_port_scan_witness :
  fst (get_ip env_offline "example.test" (mkState [] [])) = Ok None /\
  dict_get (KStr "port_scan") (final_results env_offline "example.test")
  = Some (PStr scan_skipped).
Proof.
  assert (H : fst (get_ip env_offline "example.test" (mkState [] [])) = Ok None)
    by (vm_compute; reflexivity).
  split; [exact H|].
  exact (proj1 (unresolved_skips_port_scan env_offline "example.test" H)).
Defined.

(** C5, against the claim: for the literal target ["93.184.216.34"] with
    every collector failing, the run completes but the report has no
    [ip_address] entry and no HTTP entry at all. *)
Lemma literal_target_omits_fields :
  fst (run_recon env_offline "93.184.216.34") = Ok tt /\
  dict_get (KStr "ip_address") (final_results env_offline "93.184.216.34") = None /\
  dict_get (KStr "https_headers") (final_results env_offline "93.184.216.34") = None /\
  dict_get (KStr "http_headers") (final_results env_offline "93.184.216.34") = None.
Proof. vm_compute. split; [reflexivity|split; [reflexivity|split; reflexivity]]. Qed.

(** C5, as amended: a completed run against a reachable host. *)
Lemma report_fields_tagged_witness :
  fst (run_recon env_demo "example.com") = Ok tt /\
  tagged (dict_get (KStr "port_scan") (final_results env_demo "example.com")) scan_skipped.
Proof.
  assert (H : fst (run_recon env_demo "example.com") = Ok tt) by (vm_compute; reflexivity).
  split; [exact H|].
  exact (proj1 (proj2 (proj2 (report_fields_tagged env_demo "example.com" H)))).
Defined.

(** C6: resolving ["a..com"] raises [UnicodeError] (the idna encoding of
    the empty label), which [get_ip] does not catch: the run ends there. *)
Lemma get_ip_resolution_witness :
  is_ip_address "a..com" = false /\
  gethostbyname env_idna "a..com" = inr UnicodeError /\
  run_recon env_idna "a..com" = (Exc UnicodeError, mkState [] [CResolve "a..com"]).
Proof.
  assert (H1 : is_ip_address "a..com" = false) by (vm_compute; reflexivity).
  assert (H2 : gethostbyname env_idna "a..com" = inr UnicodeError) by reflexivity.
  assert (H3 : UnicodeError <> GaiError) by discriminate.
  split; [exact H1|split; [exact H2|]].
  exact (proj2 (proj2 (proj2 (proj2 (get_ip_resolution env_idna "a..com" (mkState [] []))))
                 H1 UnicodeError H2 H3)).
Defined.

(** C4: ["999.999.999.999"] is classified as an address and every
    [connect_ex] raises; the ten ports started before the first failure
    (21 to 139) are the only attempts, and the run ends without any port
    result. *)
Lemma raising_attempt_aborts_run_witness :
  is_ip_address "999.999.999.999" = true /\
  resolved env_unparsable "999.999.999.999" = Some "999.999.999.999" /\
  connect_ex env_unparsable "999.999.999.999" 21%Z = None /\
  fst (run_recon env_unparsable "999.999.999.999") = Exc ProbeError /\
  dict_get (KStr "port_scan") (final_results env_unparsable "999.999.999.999") = None /\
  trace (snd (run_recon env_unparsable "999.999.999.999"))
  = CWhois "999.999.999.999"
    :: map (CConnect "999.999.999.999") [21; 22; 23; 25; 53; 80; 110; 115; 135; 139]%Z.
Proof.
  assert (H0 : is_ip_address "999.999.999.999" = true) by (vm_compute; reflexivity).
  assert (H1 : resolved env_unparsable "999.999.999.999" = Some "999.999.999.999")
    by (vm_compute; reflexivity).
  assert (H2 : "999.999.999.999" <> "") by discriminate.
  assert (H3 : In 21%Z common_ports) by (simpl; auto).
  assert (H4 : connect_ex env_unparsable "999.999.999.999" 21%Z = None) by reflexivity.
  destruct (raising_attempt_aborts_run env_unparsable _ _ _ H1 H2 H3 H4) as [A [B _]].
  split; [exact H0|split; [exact H1|split; [exact H4|split; [exact A|split; [exact B|]]]]].
  vm_compute. reflexivity.
Defined.

(** C10, against the claim: the report of a scan with port 80 open does
    not come back identical: the key [80] comes back as ["80"]. *)
Lemma port_keys_become_strings :
  of_json (to_json (report "example.com" (final_results env_demo "example.com")))
  <> report "example.com" (final_results env_demo "example.com").
Proof. vm_compute. discriminate. Qed.

(** C10, as amended: a report without integer keys round-trips exactly. *)
Lemma json_roundtrip_witness :
  keys_unique (report "example.test" (final_results env_offline "example.test")) = true /\
  of_json (to_json (report "example.test" (final_results env_offline "example.test")))
  = report "example.test" (final_results env_offline "example.test").
Proof.
  assert (H : keys_unique (report "example.test" (final_results env_offline "example.test"))
              = true) by (vm_compute; reflexivity).
  split; [exact H|].
  rewrite (json_roundtrip _ H). vm_compute. reflexivity.
Defined.

End Runs.

(* ------------------------------------------------------------------ *)
(** ** Concrete runs for the properties of whole runs *)

Module ExtraRuns.
Import Classifier Json Pool Recon PoolFacts ReconFacts Scenarios Views RunFacts.
Local Open Scope list_scope.

Lemma demo_connect_total :
  forall p, In p common_ports -> connect_ex env_demo "93.184.216.34" p <> None.
Proof.
  intros p Hp. simpl in Hp.
  repeat (destruct Hp as [<-|Hp]; [vm_compute; discriminate|]). destruct Hp.
Qed.

(** Scanning the demo host: 22, 80 and 443 are open. *)
Lemma port_scan_open_services_witness :
  "93.184.216.34" <> "" /\
  (forall p, In p common_ports -> connect_ex env_demo "93.184.216.34" p <> None) /\
  exists ops,
    fst (scan_common_ports env_demo (Some "93.184.216.34") (mkState [] [])) = Ok tt /\
    (forall p s, In (p, s) ops <->
       In p common_ports /\ connect_ex env_demo "93.184.216.34" p = Some 0%Z /\
       s = service env_demo p).
Proof.
  assert (Ha : "93.184.216.34" <> "") by discriminate.
  split; [exact Ha|split; [exact demo_connect_total|]].
  destruct (port_scan_open_services env_demo "93.184.216.34" (mkState [] []) Ha
              demo_connect_total) as [ops [Hs [_ Hin]]].
  exists ops. rewrite Hs. split; [reflexivity|exact Hin].
Defined.

(** An address the socket layer cannot parse: port 21 raises. *)
Lemma port_scan_failure_keeps_results_witness :
  "999.999.999.999" <> "" /\ In 21%Z common_ports /\
  connect_ex env_unparsable "999.999.999.999" 21%Z = None /\
  results (snd (scan_common_ports env_unparsable (Some "999.999.999.999")
                  (mkState [] []))) = [].
Proof.
  assert (H1 : "999.999.999.999" <> "") by discriminate.
  assert (H2 : In 21%Z common_ports) by (simpl; auto).
  assert (H3 : connect_ex env_unparsable "999.999.999.999" 21%Z = None) by reflexivity.
  split; [exact H1|split; [exact H2|split; [exact H3|]]].
  exact (proj2 (port_scan_failure_keeps_results env_unparsable _ _ (mkState [] []) H1 H2 H3)).
Defined.

(** A completed run against the demo host. *)
Lemma run_recon_calls_witness :
  fst (run_recon env_demo "example.com") = Ok tt /\
  trace (snd (run_recon env_demo "example.com"))
  = resolve_calls "example.com" ++ [CWhois "example.com"] ++ dns_calls "example.com"
    ++ scan_calls (resolved env_demo "example.com") ++ http_calls env_demo "example.com"
    ++ [CWrite "example.com_recon.json"
               (to_json (report "example.com" (final_results env_demo "example.com")))].
Proof.
  assert (H : fst (run_recon env_demo "example.com") = Ok tt) by (vm_compute; reflexivity).
  exact (conj H (run_recon_calls env_demo "example.com" H)).
Defined.

(** The disk is full: [open] succeeds, the dump fails, and the run leaves
    [example.com_recon.json] truncated. *)
Lemma run_recon_exceptions_witness :
  fst (run_recon env_disk_full "example.com") = Exc WriteError /\
  ~ writes_file (trace (snd (run_recon env_disk_full "example.com"))) /\
  In (CTruncate "example.com_recon.json") (trace (snd (run_recon env_disk_full "example.com"))).
Proof.
  assert (H : fst (run_recon env_disk_full "example.com") = Exc WriteError)
    by (vm_compute; reflexivity).
  destruct (run_recon_exceptions env_disk_full "example.com" WriteError H)
    as [W [[_ [Hg _]]|[[Hx _]|[_ [_ Ht]]]]];
    [vm_compute in Hg; discriminate Hg|discriminate|].
  split; [exact H|split; [exact W|]].
  apply (proj2 (Ht "example.com_recon.json")). split; reflexivity.
Defined.

Lemma report_key_order_witness :
  fst (run_recon env_demo "example.com") = Ok tt /\
  map fst (final_results env_demo "example.com")
  = [KStr "ip_address"; KStr "whois"; KStr "dns_records"; KStr "port_scan";
     KStr "https_headers"].
Proof.
  assert (H : fst (run_recon env_demo "example.com") = Ok tt) by (vm_compute; reflexivity).
  split; [exact H|].
  rewrite (report_key_order env_demo "example.com" H). vm_compute. reflexivity.
Defined.

Lemma env_demo_well_formed : well_formed env_demo.
Proof.
  split.
  - intros t w H. discriminate.
  - intros url n h H. simpl in H. destruct (String.eqb url "https://example.com");
      [|discriminate]. inversion H; subst. simpl.
    constructor; [simpl; intros [H1|[]]; discriminate|constructor; [intros []|constructor]].
Qed.

Lemma saved_report_reloads_witness :
  well_formed env_demo /\ fst (run_recon env_demo "example.com") = Ok tt /\
  exists doc, In (CWrite "example.com_recon.json" doc)
                 (trace (snd (run_recon env_demo "example.com"))) /\
              of_json doc = keys_to_str (report "example.com"
                                           (final_results env_demo "example.com")).
Proof.
  assert (H : fst (run_recon env_demo "example.com") = Ok tt) by (vm_compute; reflexivity).
  split; [exact env_demo_well_formed|split; [exact H|]].
  exact (saved_report_reloads env_demo "example.com" env_demo_well_formed H).
Defined.

End ExtraRuns.
